(** * Value synthesis for a GraphQL schema

    A shallow embedding of the faker's field resolver
    ([fakeFieldResolver]), abstract-type resolver ([fakeTypeResolver])
    and directive lookup ([getDirectiveArgs]), together with the
    placeholder substitution of [runServer], and the properties they
    satisfy. *)

From stdpp Require Import gmap strings pretty list fin_maps.
From Stdlib Require Import ZArith Lia Ascii.

Set Warnings "-register-all".
Local Open Scope Z_scope.

(** ** JavaScript values *)

(** The values that flow through the resolvers.  Numbers are the integers
    of GraphQL's [Int]; an object is a finite map from property names to
    values; [VError] is an instance of [Error]. *)
Inductive Value : Type :=
| VUndefined
| VNull
| VBool (b : bool)
| VNum (z : Z)
| VStr (s : string)
| VArr (items : list Value)
| VObj (props : gmap string Value)
| VError (message : string).

(** [typeof v === 'object'] *)
Definition typeof_object (v : Value) : bool :=
  match v with
  | VNull | VArr _ | VObj _ | VError _ => true
  | _ => false
  end.

Definition is_null (v : Value) : bool :=
  match v with VNull => true | _ => false end.

Definition Array_isArray (v : Value) : bool :=
  match v with VArr _ => true | _ => false end.

(** [v instanceof Error] *)
Definition instanceof_Error (v : Value) : bool :=
  match v with VError _ => true | _ => false end.

Definition isPlainObject (maybeObject : Value) : bool :=
  typeof_object maybeObject &&
  negb (is_null maybeObject) &&
  negb (Array_isArray maybeObject).

(** [obj[key]]: a missing property reads as [undefined]. *)
Definition prop (key : string) (obj : gmap string Value) : Value :=
  default VUndefined (obj !! key).

(** ** Exceptions *)

Inductive Exception : Type :=
| AssertionError
| RangeError
| TypeError
| GraphQLError.

Inductive Result (A : Type) : Type :=
| Ok (a : A)
| Throw (e : Exception).
Arguments Ok {A} a.
Arguments Throw {A} e.

(** ** Schema elements *)

(** A directive applied in the schema text, with its arguments as they
    are written. *)
Record DirectiveNode := {
  dn_name : string;
  dn_arguments : gmap string Value
}.

(** A definition node or an extension node of the syntax tree; only the
    directives it carries matter here. *)
Record ASTNode := {
  directives : list DirectiveNode
}.

(** A directive definition of the schema.  [getArgumentValues] is
    graphql-js's coercion of the arguments written at an occurrence to
    the arguments that the definition declares: the coerced values, or
    [None] when the arguments do not coerce (a required argument is
    missing, a value is not of the declared type, an [Int] does not fit
    in 32 bits), where graphql-js throws a [GraphQLError]. *)
Record GraphQLDirective := {
  directive_name : string;
  getArgumentValues : gmap string Value → option (gmap string Value)
}.

(** What [getDirectiveArgs] reads of a type or of a field definition:
    the properties [astNode] and [extensionNodes]. *)
Record SchemaObject := {
  astNode : option ASTNode;
  extensionNodes : option (list ASTNode)
}.

(** graphql-js's [getDirectiveValues(directiveDef, node)]: the coerced
    argument values of the first directive of [node] named as
    [directiveDef], [undefined] ([None]) when the node carries none, and
    a [GraphQLError] when the arguments of that directive do not
    coerce. *)
Definition getDirectiveValues (directiveDef : GraphQLDirective) (node : ASTNode)
  : Result (option (gmap string Value)) :=
  match find (fun d => String.eqb (dn_name d) (directive_name directiveDef))
             (directives node) with
  | Some directiveNode =>
      match getArgumentValues directiveDef (dn_arguments directiveNode) with
      | Some coerced => Ok (Some coerced)
      | None => Throw GraphQLError
      end
  | None => Ok None
  end.

(** The loop [for (const node of nodes) args = getDirectiveValues(directive, node)]. *)
Fixpoint for_each_node (directive : GraphQLDirective) (nodes : list ASTNode)
    (args : option (gmap string Value)) : Result (option (gmap string Value)) :=
  match nodes with
  | [] => Ok args
  | node :: nodes' =>
      match getDirectiveValues directive node with
      | Ok args' => for_each_node directive nodes' args'
      | Throw e => Throw e
      end
  end.

Definition getDirectiveArgs (directive : option GraphQLDirective)
    (object : SchemaObject) : Result (option (gmap string Value)) :=
  match directive with
  | None => Throw AssertionError
  | Some directive =>
      let args := None in
      match
        match astNode object with
        | Some node => getDirectiveValues directive node
        | None => Ok args
        end
      with
      | Throw e => Throw e
      | Ok args =>
          match extensionNodes object with
          | Some nodes => for_each_node directive nodes args
          | None => Ok args
          end
      end
  end.

(** The node carries at least one occurrence of the directive. *)
Definition carries (directive : GraphQLDirective) (node : ASTNode) : Prop :=
  ∃ d, d ∈ directives node ∧ dn_name d = directive_name directive.

(** All the nodes that [getDirectiveArgs] looks at: the base
    declaration, then the extension nodes. *)
Definition declaration_sites (object : SchemaObject) : list ASTNode :=
  option_list (astNode object) ++ default [] (extensionNodes object).

(** Number of occurrences of the directive over all these nodes. *)
Definition occurrences (directive : GraphQLDirective) (object : SchemaObject) : nat :=
  length (filter (fun d => dn_name d = directive_name directive)
                 (declaration_sites object ≫= directives)).

(** ** GraphQL types and schema *)

Record GraphQLEnumValue := {
  enum_value_name : string;
  value : Value
}.

Inductive TypeKind : Type :=
| ScalarType
| EnumType (getValues : list GraphQLEnumValue)
| ObjectType
| InterfaceType
| UnionType.

(** A named output type, with its definition node and the nodes of the
    [extend] fragments that re-declare it, which graphql-js keeps in the
    property [extensionASTNodes]. *)
Record GraphQLNamedType := {
  kind : TypeKind;
  name : string;
  type_astNode : option ASTNode;
  extensionASTNodes : option (list ASTNode)
}.

Inductive GraphQLType : Type :=
| NamedType (type : GraphQLNamedType)
| GraphQLList (ofType : GraphQLType)
| GraphQLNonNull (ofType : GraphQLType).

(** A field definition.  It has a definition node and no [extensionNodes]
    property: a field cannot be extended on its own. *)
Record GraphQLField := {
  field_type : GraphQLType;
  field_astNode : option ASTNode
}.

(** What [getDirectiveArgs] reads of a type: its [astNode], and the
    property [extensionNodes], which no type of graphql-js has (the
    fragments are in [extensionASTNodes]). *)
Definition type_object (type : GraphQLNamedType) : SchemaObject :=
  {| astNode := type_astNode type; extensionNodes := None |}.

Definition field_object (fieldDef : GraphQLField) : SchemaObject :=
  {| astNode := field_astNode fieldDef; extensionNodes := None |}.

Record GraphQLObjectType := {
  object_name : string;
  getFields : gmap string GraphQLField
}.

(** A schema holds one type per name, so a type is identified by its
    name: the root types are kept by name and [getPossibleTypes] is keyed
    by the name of the abstract type. *)
Record GraphQLSchema := {
  schema_directives : list GraphQLDirective;
  possibleTypes : gmap string (list GraphQLNamedType);
  getQueryType : option string;
  getMutationType : option string
}.

Definition getDirective (schema : GraphQLSchema) (directiveName : string)
  : option GraphQLDirective :=
  find (fun d => String.eqb (directive_name d) directiveName)
       (schema_directives schema).

Definition getPossibleTypes (schema : GraphQLSchema)
    (abstractType : GraphQLNamedType) : list GraphQLNamedType :=
  default [] (possibleTypes schema !! name abstractType).

Definition isLeafType (type : GraphQLNamedType) : bool :=
  match kind type with ScalarType | EnumType _ => true | _ => false end.

Definition isAbstractType (type : GraphQLNamedType) : bool :=
  match kind type with InterfaceType | UnionType => true | _ => false end.

Definition isCompositeType (type : GraphQLType) : bool :=
  match type with
  | NamedType t =>
      match kind t with
      | ObjectType | InterfaceType | UnionType => true
      | _ => false
      end
  | _ => false
  end.

Definition getNullableType (type : GraphQLType) : GraphQLType :=
  match type with
  | GraphQLNonNull ofType => ofType
  | _ => type
  end.

(** ** The generators of ['./fake'] *)

(** Modelled from the spec: the module ['./fake'] is not among the
    sources.  [random_number min max] stands for faker's
    [faker.random.number({min, max})], which the early single-file faker
    calls in its [getRandomInt]; [fakeValue] is the generator behind a
    [fake] annotation; [stdScalarFakers name] is the generator that the
    registry of scalar generators, an object written as an object
    literal, has as its own property [name], if it has one.  [Seed] is
    the state of the random generator. *)
Class Fake := {
  Seed : Type;
  random_number : Value → Value → Seed → Z * Seed;
  fakeValue : Value → Value → Value → Seed → Result (Value * Seed);
  stdScalarFakers : string → option (Seed → Result (Value * Seed))
}.

(** The properties that an object written as an object literal inherits
    from [Object.prototype], each with what it gives when it is called
    as [faker()], with no receiver and no argument: [constructor] makes
    an object, [toString] names the missing receiver, [isPrototypeOf]
    answers [false] for a missing argument, the others turn the missing
    receiver into an object and throw, and [__proto__] is no function. *)
Definition Object_prototype (key : string) : option (Result Value) :=
  if decide (key = "constructor") then Some (Ok (VObj ∅))
  else if decide (key = "toString") then Some (Ok (VStr "[object Undefined]"))
  else if decide (key = "isPrototypeOf") then Some (Ok (VBool false))
  else if decide (key ∈ ["valueOf"; "toLocaleString"; "hasOwnProperty";
                          "propertyIsEnumerable"; "__proto__";
                          "__defineGetter__"; "__defineSetter__";
                          "__lookupGetter__"; "__lookupSetter__"])
  then Some (Throw TypeError)
  else None.

(** The contract of [faker.random.number]: an inclusive random integer in
    [[min, max]].  Nothing is said when [max < min] or when a bound is
    not a number. *)
Class RandomNumberInRange `{Fake} : Prop :=
  random_number_range : ∀ (min max : Z) (s : Seed),
    min ≤ max →
    min ≤ (random_number (VNum min) (VNum max) s).1 ≤ max.

(** ** Computations that draw random numbers and may throw *)

Definition M `{Fake} (A : Type) : Type := Seed → Result (A * Seed).

Definition ret `{Fake} {A} (a : A) : M A := fun s => Ok (a, s).

Definition throw `{Fake} {A} (e : Exception) : M A := fun _ => Throw e.

Definition bind `{Fake} {A B} (m : M A) (k : A → M B) : M B :=
  fun s =>
    match m s with
    | Ok (a, s') => k a s'
    | Throw e => Throw e
    end.

(** A computation that draws nothing. *)
Definition pure_result `{Fake} {A} (r : Result A) : M A :=
  fun s =>
    match r with
    | Ok a => Ok (a, s)
    | Throw e => Throw e
    end.

Notation "x <- m ;; k" := (bind m (fun x => k))
  (at level 100, m at next level, right associativity).

(** [a || b] on callbacks: [b] is evaluated only when [a] is [undefined]. *)
Definition or_else `{Fake} {A} (a : M (option A)) (b : M (option A)) : M (option A) :=
  x <- a ;;
  match x with
  | Some _ => ret x
  | None => b
  end.

Infix "|||" := or_else (at level 50, left associativity).

Section Generators.
Context `{Fake}.

(** [getRandomInt] and [getRandomItem], as the single-file version of
    the faker has them. *)
Definition getRandomInt (min max : Value) : M Z :=
  fun s => Ok (random_number min max s).

(** [array[getRandomInt(0, array.length - 1)]], [None] being [undefined]:
    an index outside the array reads as [undefined]. *)
Definition getRandomItem {A} (array : list A) : M (option A) :=
  i <- getRandomInt (VNum 0) (VNum (Z.of_nat (length array) - 1)) ;;
  ret (if i <? 0 then None else array !! Z.to_nat i).

(** [n] items, produced in order. *)
Fixpoint repeatM (n : nat) (item : M Value) : M (list Value) :=
  match n with
  | O => ret []
  | S n' =>
      v <- item ;;
      vs <- repeatM n' item ;;
      ret (v :: vs)
  end.

(** [Array(n).fill(null).map(() => item())]: [Array(n)] throws a
    [RangeError] unless [0 <= n < 2^32]. *)
Definition Array_fill_map (n : Z) (item : M Value) : M Value :=
  if (n <? 0) || (2 ^ 32 - 1 <? n) then throw RangeError
  else
    items <- repeatM (Z.to_nat n) item ;;
    ret (VArr items).

End Generators.

(** ** The resolvers *)

(** The callbacks built by [getFakeValueCB] and [getExampleValueCB], as
    data: each closes over the arguments of the annotation it was built
    from. *)
Inductive ValueCB : Type :=
| FakeCB (args : gmap string Value)
| ExampleCB (args : gmap string Value).

(** The own enumerable properties of a value, as copied by [{...v}]. *)
Definition own_props (v : Value) : gmap string Value :=
  match v with
  | VObj props => props
  | VArr items => list_to_map (imap (fun i x => (pretty i, x)) items)
  | VStr s =>
      list_to_map
        (imap (fun i c => (pretty i, VStr (String c EmptyString)))
              (String.list_ascii_of_string s))
  | _ => ∅
  end.

(** [{...a, ...b}]: the properties of [b] are written over those of [a]. *)
Definition spread (a b : gmap string Value) : gmap string Value := b ∪ a.

(** What the abstract-type resolver returns: a type name, or a type of
    the schema. *)
Inductive ResolvedType : Type :=
| TypeName (typeName : string)
| TypeObject (type : GraphQLNamedType).

Definition resolved_name (r : ResolvedType) : string :=
  match r with
  | TypeName n => n
  | TypeObject t => name t
  end.

Record GraphQLResolveInfo := {
  schema : GraphQLSchema;
  parentType : GraphQLObjectType;
  fieldName : string
}.

Section Resolvers.
Context `{Fake}.

(** The property read [stdScalarFakers[typeName]]: the own property of
    the registry, or else the property it inherits. *)
Definition registry_read (typeName : string) : option (M Value) :=
  match stdScalarFakers typeName with
  | Some faker => Some faker
  | None => pure_result <$> Object_prototype typeName
  end.

(** The enum case is the case [isEnumType(type)]. *)
Definition fakeLeafValueCB (type : GraphQLNamedType) : M Value :=
  match kind type with
  | EnumType getValues =>
      let values := map value getValues in
      item <- getRandomItem values ;;
      ret (default VUndefined item)
  | _ =>
      match registry_read (name type) with
      | Some faker => faker
      | None => ret (VStr ("<" +:+ name type +:+ ">"))
      end
  end.

(** Calling a callback.  [ExamplesArgs] types [values] as an array;
    reading [length] of [undefined] or [null] is a [TypeError], and so
    is, here, any other value that is not an array. *)
Definition call (valueCB : ValueCB) : M Value :=
  match valueCB with
  | FakeCB args =>
      fakeValue (prop "type" args) (prop "options" args) (prop "locale" args)
  | ExampleCB args =>
      match prop "values" args with
      | VArr values =>
          item <- getRandomItem values ;;
          ret (default VUndefined item)
      | _ => throw TypeError
      end
  end.

(** [fakeTypeResolver]; [defaultResolved] is what graphql-js's
    [defaultTypeResolver] answered, [None] for [null] or [undefined]. *)
Definition fakeTypeResolver (defaultResolved : option ResolvedType)
    (schema : GraphQLSchema) (abstractType : GraphQLNamedType)
  : M (option ResolvedType) :=
  match defaultResolved with
  | Some _ => ret defaultResolved
  | None =>
      let possibleTypes := getPossibleTypes schema abstractType in
      item <- getRandomItem possibleTypes ;;
      ret (TypeObject <$> item)
  end.

(** The functions nested in [fakeFieldResolver], which close over
    [schema] and [fieldDef]. *)
Section Closure.
Variable schema : GraphQLSchema.
Variable fieldDef : GraphQLField.

Definition getFakeValueCB (object : SchemaObject) : M (option ValueCB) :=
  let fakeDirective := getDirective schema "fake" in
  args <- pure_result (getDirectiveArgs fakeDirective object) ;;
  ret (FakeCB <$> args).

Definition getExampleValueCB (object : SchemaObject) : M (option ValueCB) :=
  let examplesDirective := getDirective schema "examples" in
  args <- pure_result (getDirectiveArgs examplesDirective object) ;;
  ret (ExampleCB <$> args).

Definition getListLength (object : SchemaObject) : M Z :=
  let listLength := getDirective schema "listLength" in
  args <- pure_result (getDirectiveArgs listLength object) ;;
  match args with
  | Some args => getRandomInt (prop "min" args) (prop "max" args)
  | None => getRandomInt (VNum 2) (VNum 4)
  end.

(** The callback chosen for a named type (lines 103-104). *)
Definition getValueCB (type : GraphQLNamedType) : M (option ValueCB) :=
  getExampleValueCB (field_object fieldDef) ||| getFakeValueCB (field_object fieldDef) |||
    getExampleValueCB (type_object type) ||| getFakeValueCB (type_object type).

Fixpoint fakeValueOfType (type : GraphQLType) : M Value :=
  match type with
  | GraphQLNonNull ofType => fakeValueOfType ofType
  | GraphQLList ofType =>
      n <- getListLength (field_object fieldDef) ;;
      Array_fill_map n (fakeValueOfType ofType)
  | NamedType type =>
      valueCB <- getValueCB type ;;
      if isLeafType type then
        match valueCB with
        | Some valueCB => call valueCB
        | None => fakeLeafValueCB type
        end
      else
        __typename <-
          (if isAbstractType type then
             item <- getRandomItem (getPossibleTypes schema type) ;;
             match item with
             | Some possibleType => ret (name possibleType)
             | None => throw TypeError
             end
           else ret (name type)) ;;
        extra <-
          match valueCB with
          | Some valueCB => call valueCB
          | None => ret (VObj ∅)
          end ;;
        ret (VObj (spread {[ "__typename" := VStr __typename ]} (own_props extra)))
  end.

End Closure.

Definition isMutationType (info : GraphQLResolveInfo) : bool :=
  match getMutationType (schema info) with
  | Some mutationType => String.eqb (object_name (parentType info)) mutationType
  | None => false
  end.

(** The value of [resolved] (lines 72-74): a fresh value when the real
    one is [undefined], the real one otherwise. *)
Definition resolve (defaultResolved : Value) (info : GraphQLResolveInfo)
    (fieldDef : GraphQLField) : M Value :=
  match defaultResolved with
  | VUndefined => fakeValueOfType (schema info) fieldDef (field_type fieldDef)
  | _ => ret defaultResolved
  end.

(** The value spread over the result of a mutation (lines 82-86). *)
Definition echoed (args : gmap string Value) : Value :=
  let inputArg := prop "input" args in
  if (size args =? 1)%nat && isPlainObject inputArg then inputArg else VObj args.

(** [fakeFieldResolver]; [defaultResolved] is what graphql-js's
    [defaultFieldResolver] read from the source object, the real value
    of the field.  Reading [fieldDef.type] of a field that the parent
    type does not have is a [TypeError]. *)
Definition fakeFieldResolver (defaultResolved : Value)
    (args : gmap string Value) (info : GraphQLResolveInfo) : M Value :=
  let fieldDef := getFields (parentType info) !! fieldName info in
  if instanceof_Error defaultResolved then ret defaultResolved
  else
    match fieldDef with
    | None => throw TypeError
    | Some fieldDef =>
        resolved <- resolve defaultResolved info fieldDef ;;
        let isMutation := isMutationType info in
        let isCompositeReturn := isCompositeType (getNullableType (field_type fieldDef)) in
        if isMutation && isCompositeReturn && isPlainObject resolved then
          ret (VObj (spread (own_props resolved) (own_props (echoed args))))
        else ret resolved
    end.

End Resolvers.

(** ** The placeholder of the extension text in [runServer] *)

Fixpoint skip (n : nat) (s : string) : string :=
  match n, s with
  | O, _ => s
  | S n', String _ s' => skip n' s'
  | S _, EmptyString => EmptyString
  end.

(** [s.replace(pattern, replacement)] with a string for pattern: the
    first occurrence is replaced, and only that one.  The replacement is
    the name of a type, which has no [$] in it, so it is inserted as it
    stands. *)
Fixpoint String_replace (pattern replacement s : string) : string :=
  if String.prefix pattern s then
    replacement +:+ skip (String.length pattern) s
  else
    match s with
    | EmptyString => EmptyString
    | String c s' => String c (String_replace pattern replacement s')
    end.

(** [s.includes(pattern)] *)
Fixpoint includes (pattern s : string) : bool :=
  String.prefix pattern s ||
  match s with
  | EmptyString => false
  | String _ s' => includes pattern s'
  end.

(** The body of the extension text after lines 136-139 of [runServer];
    [schema] is the schema built from the base text, and a schema
    without a query type has no name to read. *)
Definition runServer_extensionSDL (schema : GraphQLSchema)
    (extensionSDL : option string) : Result (option string) :=
  match extensionSDL with
  | Some body =>
      match getQueryType schema with
      | Some queryTypeName =>
          Ok (Some (String_replace "<RootTypeName>" queryTypeName body))
      | None => Throw TypeError
      end
  | None => Ok None
  end.

(** ** A concrete generator *)

(** A generator in the manner of faker's [random.number] over a Mersenne
    twister: the seed lists the 32-bit outputs to come, a draw [k] is the
    fraction [k / 2^32], the upper bound is made inclusive when it is not
    negative, and a bound that is not a number takes faker's default. *)
Definition mersenne_number (min max : Value) (s : list Z) : Z * list Z :=
  let min := match min with VNum z => z | _ => 0 end in
  let max := match max with VNum z => z | _ => 99999 end in
  let max := if 0 <=? max then max + 1 else max in
  let k := match s with [] => 0 | k :: _ => k `mod` 2 ^ 32 end in
  (min + (k * (max - min)) `div` 2 ^ 32, tail s).

(** A sample registry with three generators, written after those of
    [Int], [String] and [Boolean] in the early single-file faker
    ([typeFakers]); it is not the registry of the faker, whose other
    generators give a fraction and a base64 text. *)
Definition mersenne_scalars (typeName : string)
  : option (list Z → Result (Value * list Z)) :=
  if String.eqb typeName "Int" then
    Some (fun s => let r := mersenne_number (VNum 0) (VNum 99999) s in Ok (VNum r.1, r.2))
  else if String.eqb typeName "String" then
    Some (fun s => Ok (VStr "string", s))
  else if String.eqb typeName "Boolean" then
    Some (fun s => let r := mersenne_number (VNum 0) (VNum 1) s in
                   Ok (VBool (r.1 =? 1), r.2))
  else None.

#[export] Instance mersenne : Fake := {|
  Seed := list Z;
  random_number := mersenne_number;
  fakeValue := fun type _ _ s => Ok (type, s);
  stdScalarFakers := mersenne_scalars
|}.

(** ** A sample schema

    [type Query { pets: [Pet] @listLength(min: 1, max: 1)  stamp: Date
                  stamps: [Date]!  nobody: [Node]
                  weird: [Int] @listLength(min: 3, max: 1) }]
    [type Mutation { addCat(input: CatInput): Cat }]
    [type Cat @examples(values: [{name: "Tom"}]) { name: String }]
    [extend type Cat { age: Int }], [type Dog], [union Pet = Cat | Dog],
    [type Kitten @examples(values: [{name: "Tom"}])], [interface Node],
    [scalar Date], and a field [kitten: Kitten! @fake(type: firstName)]. *)

(** Modelled from the spec: [fake_definition.graphql], which declares
    the three directives, is not among the sources.  [fake] has a
    required [type], [options] that are [{}] when not written, and a
    [locale]; [examples] has a required list [values] (a value that is
    no list is coerced to the list of that value); [listLength] has the
    two integers [min] and [max], which are GraphQL [Int]s of 32 bits. *)
Definition fakeDirective : GraphQLDirective := {|
  directive_name := "fake";
  getArgumentValues := fun written =>
    match written !! "type" with
    | Some (VStr _) =>
        Some (<[ "options" := default (VObj ∅) (written !! "options") ]> written)
    | _ => None
    end
|}.

Definition examplesDirective : GraphQLDirective := {|
  directive_name := "examples";
  getArgumentValues := fun written =>
    match written !! "values" with
    | None | Some VNull | Some VUndefined => None
    | Some (VArr values) => Some {[ "values" := VArr values ]}
    | Some v => Some {[ "values" := VArr [v] ]}
    end
|}.

Definition is_Int (z : Z) : bool := (- 2 ^ 31 <=? z) && (z <? 2 ^ 31).

Definition listLengthDirective : GraphQLDirective := {|
  directive_name := "listLength";
  getArgumentValues := fun written =>
    match written !! "min", written !! "max" with
    | Some (VNum min), Some (VNum max) =>
        if is_Int min && is_Int max
        then Some {[ "min" := VNum min; "max" := VNum max ]}
        else None
    | _, _ => None
    end
|}.

Definition plain : ASTNode := {| directives := [] |}.

Definition with_directive (directiveName : string) (arguments : gmap string Value) : ASTNode :=
  {| directives := [ {| dn_name := directiveName; dn_arguments := arguments |} ] |}.

Definition catExamples : gmap string Value :=
  {[ "values" := VArr [VObj {[ "name" := VStr "Tom" ]}] ]}.

Definition Cat : GraphQLNamedType := {|
  kind := ObjectType;
  name := "Cat";
  type_astNode := Some (with_directive "examples" catExamples);
  extensionASTNodes := Some [plain]
|}.

Definition Dog : GraphQLNamedType :=
  {| kind := ObjectType; name := "Dog";
     type_astNode := Some plain; extensionASTNodes := None |}.

Definition Pet : GraphQLNamedType :=
  {| kind := UnionType; name := "Pet";
     type_astNode := Some plain; extensionASTNodes := None |}.

Definition Node : GraphQLNamedType :=
  {| kind := InterfaceType; name := "Node";
     type_astNode := Some plain; extensionASTNodes := None |}.

Definition Date : GraphQLNamedType :=
  {| kind := ScalarType; name := "Date";
     type_astNode := Some plain; extensionASTNodes := None |}.

Definition Int : GraphQLNamedType :=
  {| kind := ScalarType; name := "Int";
     type_astNode := None; extensionASTNodes := None |}.

Definition petsField : GraphQLField := {|
  field_type := GraphQLList (NamedType Pet);
  field_astNode := Some (with_directive "listLength" {[ "min" := VNum 1; "max" := VNum 1 ]})
|}.

Definition weirdField : GraphQLField := {|
  field_type := GraphQLList (NamedType Int);
  field_astNode := Some (with_directive "listLength" {[ "min" := VNum 3; "max" := VNum 1 ]})
|}.

Definition stampField : GraphQLField :=
  {| field_type := NamedType Date; field_astNode := Some plain |}.

Definition stampsField : GraphQLField :=
  {| field_type := GraphQLNonNull (GraphQLList (NamedType Date)); field_astNode := Some plain |}.

Definition nobodyField : GraphQLField :=
  {| field_type := GraphQLList (NamedType Node); field_astNode := Some plain |}.

Definition Kitten : GraphQLNamedType := {|
  kind := ObjectType;
  name := "Kitten";
  type_astNode := Some (with_directive "examples" catExamples);
  extensionASTNodes := None
|}.


Definition addCatField : GraphQLField :=
  {| field_type := NamedType Cat; field_astNode := Some plain |}.

Definition QueryType : GraphQLObjectType := {|
  object_name := "Query";
  getFields := {[ "pets" := petsField; "stamp" := stampField;
                  "stamps" := stampsField; "nobody" := nobodyField;
                  "weird" := weirdField ]}
|}.

Definition MutationType : GraphQLObjectType :=
  {| object_name := "Mutation"; getFields := {[ "addCat" := addCatField ]} |}.

Definition sampleSchema : GraphQLSchema := {|
  schema_directives := [fakeDirective; examplesDirective; listLengthDirective];
  possibleTypes := {[ "Pet" := [Cat; Dog] ]};
  getQueryType := Some "Query";
  getMutationType := Some "Mutation"
|}.

Definition sampleInfo (parent : GraphQLObjectType) (field : string) : GraphQLResolveInfo :=
  {| schema := sampleSchema; parentType := parent; fieldName := field |}.

(** The first lookup that finds something, in the order of the list; a
    lookup that fails before one has found ends the search with its
    failure. *)
Fixpoint first_found {A} (lookups : list (Result (option A))) : Result (option A) :=
  match lookups with
  | [] => Ok None
  | Ok (Some a) :: _ => Ok (Some a)
  | Ok None :: rest => first_found rest
  | Throw e :: _ => Throw e
  end.

(** The callback made of what a lookup found. *)
Definition callback_of (make : gmap string Value → ValueCB)
    (lookup : Result (option (gmap string Value))) : Result (option ValueCB) :=
  match lookup with
  | Ok args => Ok (make <$> args)
  | Throw e => Throw e
  end.

(** The lookup of an annotation on the declaration of a field, and on
    the declaration of a type. *)
Definition field_annotation (directive : GraphQLDirective) (fieldDef : GraphQLField)
  : Result (option (gmap string Value)) :=
  match field_astNode fieldDef with
  | Some node => getDirectiveValues directive node
  | None => Ok None
  end.

Definition type_annotation (directive : GraphQLDirective) (type : GraphQLNamedType)
  : Result (option (gmap string Value)) :=
  match type_astNode type with
  | Some node => getDirectiveValues directive node
  | None => Ok None
  end.

(** The bounds that [getListLength] passes to [getRandomInt]. *)
Definition listLength_bounds (annotation : option (gmap string Value)) : Value * Value :=
  match annotation with
  | Some args => (prop "min" args, prop "max" args)
  | None => (VNum 2, VNum 4)
  end.

(** The number of seeds of [seeds] on which [run] answers [a]. *)
Definition tally {S A} `{EqDecision A} (run : S → A) (a : A) (seeds : list S) : nat :=
  length (filter (fun s => run s = a) seeds).

(** Over [seeds], the draw of an index below [n] is uniform: every index
    is drawn on the same number of seeds. *)
Definition draws_uniformly `{Fake} (n : nat) (seeds : list Seed) : Prop :=
  ∀ i j : Z, 0 ≤ i < Z.of_nat n → 0 ≤ j < Z.of_nat n →
    tally (fun s => (random_number (VNum 0) (VNum (Z.of_nat n - 1)) s).1) i seeds =
    tally (fun s => (random_number (VNum 0) (VNum (Z.of_nat n - 1)) s).1) j seeds.

(** The name of the type that [fakeTypeResolver] chooses when the default
    resolver has no answer. *)
Definition chosen_name `{Fake} (schema : GraphQLSchema) (abstractType : GraphQLNamedType)
    (s : Seed) : option string :=
  match fakeTypeResolver None schema abstractType s with
  | Ok (r, _) => resolved_name <$> r
  | Throw _ => None
  end.

(** ** More of the sample schema

    [enum Color { RED GREEN }], [mood: String @examples(values: ["happy", "sad"])],
    [matrix: [[Int]] @listLength(min: 1, max: 2)],
    [below: [Int] @listLength(min: -2, max: -1)], and a schema that
    defines none of the three directives. *)

Definition Color : GraphQLNamedType := {|
  kind := EnumType [ {| enum_value_name := "RED"; value := VStr "RED" |};
                     {| enum_value_name := "GREEN"; value := VStr "GREEN" |} ];
  name := "Color";
  type_astNode := Some plain;
  extensionASTNodes := None
|}.

Definition StringType : GraphQLNamedType :=
  {| kind := ScalarType; name := "String";
     type_astNode := None; extensionASTNodes := None |}.

Definition moodField : GraphQLField := {|
  field_type := NamedType StringType;
  field_astNode :=
    Some (with_directive "examples" {[ "values" := VArr [VStr "happy"; VStr "sad"] ]})
|}.

Definition matrixField : GraphQLField := {|
  field_type := GraphQLList (GraphQLList (NamedType Int));
  field_astNode := Some (with_directive "listLength" {[ "min" := VNum 1; "max" := VNum 2 ]})
|}.

Definition belowField : GraphQLField := {|
  field_type := GraphQLList (NamedType Int);
  field_astNode := Some (with_directive "listLength" {[ "min" := VNum (-2); "max" := VNum (-1) ]})
|}.

Definition bareSchema : GraphQLSchema := {|
  schema_directives := [];
  possibleTypes := ∅;
  getQueryType := Some "Query";
  getMutationType := None
|}.

Definition examplesOnlySchema : GraphQLSchema := {|
  schema_directives := [examplesDirective];
  possibleTypes := ∅;
  getQueryType := Some "Query";
  getMutationType := None
|}.

(** [scalar Zone] with [extend scalar Zone @examples(values: ["UTC"])],
    [scalar Era @examples(values: ["old"])] with
    [extend scalar Era @examples(values: ["new"])], a field [zone: Zone],
    and the scalars [scalar constructor] and [scalar valueOf] with a
    field of each. *)
Definition zoneExamples : gmap string Value := {[ "values" := VArr [VStr "UTC"] ]}.

Definition Zone : GraphQLNamedType := {|
  kind := ScalarType;
  name := "Zone";
  type_astNode := Some plain;
  extensionASTNodes := Some [with_directive "examples" zoneExamples]
|}.

Definition Era : GraphQLNamedType := {|
  kind := ScalarType;
  name := "Era";
  type_astNode := Some (with_directive "examples" {[ "values" := VArr [VStr "old"] ]});
  extensionASTNodes := Some [with_directive "examples" {[ "values" := VArr [VStr "new"] ]}]
|}.

Definition zoneField : GraphQLField :=
  {| field_type := NamedType Zone; field_astNode := Some plain |}.

Definition constructorType : GraphQLNamedType :=
  {| kind := ScalarType; name := "constructor";
     type_astNode := Some plain; extensionASTNodes := None |}.

Definition valueOfType : GraphQLNamedType :=
  {| kind := ScalarType; name := "valueOf";
     type_astNode := Some plain; extensionASTNodes := None |}.

Definition madeField : GraphQLField :=
  {| field_type := NamedType constructorType; field_astNode := Some plain |}.

Definition worthField : GraphQLField :=
  {| field_type := NamedType valueOfType; field_astNode := Some plain |}.

(** ** Nested lists *)

(** graphql-js's [getNamedType]: the named type under the wrappers. *)
Fixpoint getNamedType (type : GraphQLType) : GraphQLNamedType :=
  match type with
  | NamedType type => type
  | GraphQLList ofType | GraphQLNonNull ofType => getNamedType ofType
  end.

(** The value has the shape of the type as far as lists go: at every
    list wrapper it is an array whose length is between [lo] and [hi],
    and so are its items for the wrappers below. *)
Fixpoint list_lengths_within (lo hi : Z) (type : GraphQLType) (v : Value) : Prop :=
  match type with
  | NamedType _ => True
  | GraphQLNonNull ofType => list_lengths_within lo hi ofType v
  | GraphQLList ofType =>
      ∃ items, v = VArr items ∧ lo ≤ Z.of_nat (length items) ≤ hi ∧
               Forall (list_lengths_within lo hi ofType) items
  end.

(** The bounds that the field gives to every list: those of its
    [listLength] annotation, or 2 and 4. *)
Definition field_bounds (listLength : GraphQLDirective) (fieldDef : GraphQLField)
    (lo hi : Z) : Prop :=
  (field_annotation listLength fieldDef = Ok None ∧ lo = 2 ∧ hi = 4) ∨
  (∃ annotation,
     field_annotation listLength fieldDef = Ok (Some annotation) ∧
     annotation !! "min" = Some (VNum lo) ∧
     annotation !! "max" = Some (VNum hi)).

(** ** The command line of [index.ts] *)

(** The header strings are looked at character by character: they are
    taken as sequences of UTF-16 code units.  [code_units] writes one
    from ASCII text. *)
Definition code_units (text : string) : list N :=
  map Ascii.N_of_ascii (String.list_ascii_of_string text).

Fixpoint take_while {A} (p : A → bool) (l : list A) : list A :=
  match l with
  | [] => []
  | x :: l' => if p x then x :: take_while p l' else []
  end.

Fixpoint drop_while {A} (p : A → bool) (l : list A) : list A :=
  match l with
  | [] => []
  | x :: l' => if p x then drop_while p l' else l
  end.

(** The characters that [.] does not match in a regular expression. *)
Definition isLineTerminator (c : N) : bool :=
  ((c =? 10) || (c =? 13) || (c =? 8232) || (c =? 8233))%N.

(** [str.match] with the regular expression of [coerce] (a lazy group
    of any characters, a colon, a greedy group of any characters), its
    two groups: the match starts at the
    leftmost place from which a colon is reached without passing a line
    terminator, the first group is lazy and ends at the first colon, the
    second is greedy and ends at a line terminator or at the end; [None]
    is [null], when no colon is in the string.  [line] holds the
    characters read since the last line terminator. *)
Fixpoint match_name_value (line str : list N) : option (list N * list N) :=
  match str with
  | [] => None
  | c :: rest =>
      if (c =? 58)%N then
        Some (line, take_while (fun c => negb (isLineTerminator c)) rest)
      else if isLineTerminator c then match_name_value [] rest
      else match_name_value (line ++ [c]) rest
  end.

(** [headers[key] = value] for a string [value] on an object made by
    [{}]: the key [__proto__] is the accessor of the prototype, which
    ignores a string, and any other key becomes a property. *)
Definition set_header (key value : list N) (headers : gmap (list N) (list N))
  : gmap (list N) (list N) :=
  if decide (key = code_units "__proto__") then headers else <[key := value]> headers.

Section Coerce.
(** [String.prototype.toLowerCase] and [String.prototype.trim]. *)
Variable toLowerCase : list N → list N.
Variable trim : list N → list N.

(** The loop of [coerce] of the [header] option, from the headers
    gathered so far.  Destructuring [null] is a [TypeError]. *)
Fixpoint header_coerce_from (headers : gmap (list N) (list N)) (arr : list (list N))
  : Result (gmap (list N) (list N)) :=
  match arr with
  | [] => Ok headers
  | str :: arr' =>
      match match_name_value [] str with
      | None => Throw TypeError
      | Some (name, value) =>
          header_coerce_from (set_header (toLowerCase name) (trim value) headers) arr'
      end
  end.

(** [coerce] of the [header] option. *)
Definition header_coerce (arr : list (list N)) : Result (gmap (list N) (list N)) :=
  header_coerce_from ∅ arr.

(** [coerce] of the [forward-headers] option. *)
Definition forward_headers_coerce (arr : list (list N)) : list (list N) :=
  map toLowerCase arr.

End Coerce.

(** Lower case of ASCII text, for the examples. *)
Definition ascii_toLowerCase (str : list N) : list N :=
  map (fun c => if ((65 <=? c) && (c <=? 90))%N then (c + 32)%N else c) str.

(** The white space and the line terminators of JavaScript, which
    [String.prototype.trim] strips from both ends. *)
Definition isWhiteSpace (c : N) : bool :=
  ((c =? 9) || (c =? 10) || (c =? 11) || (c =? 12) || (c =? 13) || (c =? 32) ||
   (c =? 160) || (c =? 5760) || ((8192 <=? c) && (c <=? 8202)) ||
   (c =? 8232) || (c =? 8233) || (c =? 8239) || (c =? 8287) || (c =? 12288) ||
   (c =? 65279))%N.

Definition String_trim (str : list N) : list N :=
  reverse (drop_while isWhiteSpace (reverse (drop_while isWhiteSpace str))).

(** ** The editor of [index.ts] *)

(** The two texts that [runServer] holds: [schemaSDL] and
    [extensionSDL], which is [null] outside the proxy mode. *)
Record Sources := {
  schemaSDL : string;
  extensionSDL : option string
}.

(** A request on [/user-sdl].  A [POST] carries its text and what
    [fs.writeFileSync] does with it: it returns ([None]) or throws an
    error with a message. *)
Inductive Request : Type :=
| GetUserSDL
| PostUserSDL (body : string) (writeError : option string).

Inductive Response : Type :=
| Json (status : Z) (schemaSDL : string) (extensionSDL : option string)
| Sent (status : Z) (text : string).

(** The handlers [app.get('/user-sdl')] and [app.post('/user-sdl')]. *)
Definition user_sdl (request : Request) (sources : Sources) : Response * Sources :=
  match request with
  | GetUserSDL =>
      (Json 200 (schemaSDL sources) (extensionSDL sources), sources)
  | PostUserSDL body None =>
      (Sent 200 "ok",
       match extensionSDL sources with
       | None => {| schemaSDL := body; extensionSDL := None |}
       | Some _ => {| schemaSDL := schemaSDL sources; extensionSDL := Some body |}
       end)
  | PostUserSDL body (Some message) => (Sent 500 message, sources)
  end.

(** The requests of a session, one after the other. *)
Fixpoint serve (requests : list Request) (sources : Sources) : list Response * Sources :=
  match requests with
  | [] => ([], sources)
  | request :: requests' =>
      let (response, sources') := user_sdl request sources in
      let (responses, sources'') := serve requests' sources' in
      (response :: responses, sources'')
  end.

(** The text of the last [POST] of the session that was written to the
    file, if any. *)
Fixpoint last_saved (requests : list Request) : option string :=
  match requests with
  | [] => None
  | PostUserSDL body None :: requests' =>
      match last_saved requests' with
      | Some later => Some later
      | None => Some body
      end
  | _ :: requests' => last_saved requests'
  end.

(** * Properties *)

(** ** Computations *)

Section Computations.
Context `{Fake}.

Lemma bind_Ok {A B} (m : M A) (k : A → M B) s a s' :
  m s = Ok (a, s') → bind m k s = k a s'.
Proof. intros Hm. unfold bind. by rewrite Hm. Qed.

Lemma bind_Throw {A B} (m : M A) (k : A → M B) s e :
  m s = Throw e → bind m k s = Throw e.
Proof. intros Hm. unfold bind. by rewrite Hm. Qed.

Lemma bind_inv_Ok {A B} (m : M A) (k : A → M B) s r :
  bind m k s = Ok r → ∃ a s1, m s = Ok (a, s1) ∧ k a s1 = Ok r.
Proof.
  unfold bind. destruct (m s) as [[a s1] | e]; [eauto | discriminate].
Qed.

Lemma or_else_Some {A} (a b : M (option A)) s x s' :
  a s = Ok (Some x, s') → (a ||| b) s = Ok (Some x, s').
Proof. intros Ha. unfold or_else. by rewrite (bind_Ok _ _ _ _ _ Ha). Qed.

Lemma or_else_None {A} (a b : M (option A)) s s' :
  a s = Ok (None, s') → (a ||| b) s = b s'.
Proof. intros Ha. unfold or_else. by rewrite (bind_Ok _ _ _ _ _ Ha). Qed.

Lemma getRandomItem_run {A} (array : list A) s :
  getRandomItem array s =
    let drawn := random_number (VNum 0) (VNum (Z.of_nat (length array) - 1)) s in
    Ok (if drawn.1 <? 0 then None else array !! Z.to_nat drawn.1, drawn.2).
Proof.
  unfold getRandomItem, getRandomInt, bind, ret.
  by destruct (random_number (VNum 0) (VNum (Z.of_nat (length array) - 1)) s).
Qed.

Lemma repeatM_length n (item : M Value) s items s' :
  repeatM n item s = Ok (items, s') → length items = n.
Proof.
  revert s items s'. induction n as [| n IH]; intros s items s' Hrun; cbn in Hrun.
  - unfold ret in Hrun. by inversion Hrun.
  - apply bind_inv_Ok in Hrun as (v & s1 & _ & Hrun).
    apply bind_inv_Ok in Hrun as (vs & s2 & Hvs & Hrun).
    unfold ret in Hrun. inversion Hrun; subst. cbn. f_equal. eauto.
Qed.

Lemma repeatM_total n (item : M Value) :
  (∀ s, ∃ v s', item s = Ok (v, s')) →
  ∀ s, ∃ items s', repeatM n item s = Ok (items, s').
Proof.
  intros Hitem. induction n as [| n IH]; intros s; cbn.
  - by exists [], s.
  - destruct (Hitem s) as (v & s1 & Hv). destruct (IH s1) as (vs & s2 & Hvs).
    exists (v :: vs), s2.
    rewrite (bind_Ok _ _ _ _ _ Hv), (bind_Ok _ _ _ _ _ Hvs). done.
Qed.

End Computations.

(** ** The concrete generator meets the contract of [faker.random.number] *)

Lemma mersenne_number_range (min max : Z) (s : list Z) :
  min ≤ max →
  min ≤ (mersenne_number (VNum min) (VNum max) s).1 ≤ max.
Proof.
  intros Hle. unfold mersenne_number. cbn [fst].
  set (k := match s with [] => 0 | k :: _ => k `mod` 2 ^ 32 end).
  assert (Hk : 0 ≤ k < 2 ^ 32).
  { subst k. destruct s; [lia | apply Z.mod_pos_bound; lia]. }
  set (hi := if 0 <=? max then max + 1 else max).
  assert (Hhi : max ≤ hi ≤ max + 1 ∧ (hi = max ∨ 0 ≤ max)).
  { subst hi. destruct (Z.leb_spec 0 max); lia. }
  assert (H0 : 0 ≤ (k * (hi - min)) `div` 2 ^ 32).
  { apply Z.div_pos; [nia | lia]. }
  assert (H1 : (k * (hi - min)) `div` 2 ^ 32 ≤ max - min).
  { destruct (decide (hi = max)) as [-> | Hne].
    - apply Z.div_le_upper_bound; [lia | nia].
    - assert (hi = max + 1) as -> by lia.
      assert ((k * (max + 1 - min)) `div` 2 ^ 32 < max + 1 - min); [| lia].
      apply Z.div_lt_upper_bound; [lia | nia]. }
  lia.
Qed.

#[export] Instance mersenne_in_range : RandomNumberInRange (H := mersenne).
Proof. exact mersenne_number_range. Qed.

(** ** The directive lookup *)

Lemma find_directive_None (directive : GraphQLDirective) (ds : list DirectiveNode) :
  find (fun d => String.eqb (dn_name d) (directive_name directive)) ds = None ↔
  ∀ d, d ∈ ds → dn_name d ≠ directive_name directive.
Proof.
  induction ds as [| d ds IH]; cbn.
  - split; [intros _ d Hd; inversion Hd | done].
  - destruct (String.eqb_spec (dn_name d) (directive_name directive)) as [Heq | Hne]; cbn.
    + split; [done |]. intros Hall. exfalso. apply (Hall d); [left | done].
    + rewrite IH. split.
      * intros Hall d' Hd'. apply elem_of_cons in Hd' as [-> | Hd']; auto.
      * intros Hall d' Hd'. apply Hall. by right.
Qed.

Lemma getDirectiveValues_None (directive : GraphQLDirective) (node : ASTNode) :
  getDirectiveValues directive node = Ok None ↔
  ∀ d, d ∈ directives node → dn_name d ≠ directive_name directive.
Proof.
  rewrite <- find_directive_None. unfold getDirectiveValues.
  destruct (find _ (directives node)) as [d |]; [| done].
  destruct (getArgumentValues directive (dn_arguments d)); split; discriminate.
Qed.

(** The lookup in a node fails in one way only. *)
Lemma getDirectiveValues_error directive node e :
  getDirectiveValues directive node = Throw e → e = GraphQLError.
Proof.
  unfold getDirectiveValues. destruct (find _ _) as [d |]; [| discriminate].
  destruct (getArgumentValues directive (dn_arguments d)); [discriminate |].
  by intros [= <-].
Qed.

Lemma for_each_node_error directive nodes args e :
  for_each_node directive nodes args = Throw e → e = GraphQLError.
Proof.
  revert args. induction nodes as [| node nodes IH]; intros args; cbn; [discriminate |].
  destruct (getDirectiveValues directive node) as [args' | e'] eqn:Hnode.
  - apply IH.
  - intros [= <-]. by eapply getDirectiveValues_error.
Qed.

Lemma getDirectiveArgs_error directive object e :
  getDirectiveArgs (Some directive) object = Throw e → e = GraphQLError.
Proof.
  unfold getDirectiveArgs.
  destruct (astNode object) as [node |].
  - destruct (getDirectiveValues directive node) as [args | e'] eqn:Hnode.
    + destruct (extensionNodes object); [apply for_each_node_error | discriminate].
    + intros [= <-]. by eapply getDirectiveValues_error.
  - destruct (extensionNodes object); [apply for_each_node_error | discriminate].
Qed.

(** Without extension nodes, the answer is the lookup in the base
    declaration. *)
Lemma getDirectiveArgs_base directive object :
  extensionNodes object = None ∨ extensionNodes object = Some [] →
  getDirectiveArgs (Some directive) object =
    match astNode object with
    | Some node => getDirectiveValues directive node
    | None => Ok None
    end.
Proof.
  intros [Hext | Hext]; unfold getDirectiveArgs; rewrite Hext;
    (destruct (astNode object) as [node |]; [| done]);
    by destruct (getDirectiveValues directive node).
Qed.

Lemma getDirectiveArgs_field directive fieldDef :
  getDirectiveArgs (Some directive) (field_object fieldDef) =
    field_annotation directive fieldDef.
Proof. by rewrite getDirectiveArgs_base; [| left]. Qed.

Lemma getDirectiveArgs_type directive type :
  getDirectiveArgs (Some directive) (type_object type) =
    type_annotation directive type.
Proof. by rewrite getDirectiveArgs_base; [| left]. Qed.

Lemma occurrences_zero directive object node :
  occurrences directive object = 0%nat →
  node ∈ declaration_sites object →
  getDirectiveValues directive node = Ok None.
Proof.
  unfold occurrences. intros Hlen Hnode.
  apply length_zero_iff_nil in Hlen.
  apply getDirectiveValues_None. intros d Hd Hname.
  assert (Hin : d ∈ filter (fun d => dn_name d = directive_name directive)
                       (declaration_sites object ≫= directives)).
  { apply list_elem_of_filter. split; [done |].
    apply list_elem_of_bind. eauto. }
  rewrite Hlen in Hin. inversion Hin.
Qed.

Lemma for_each_node_None directive (nodes : list ASTNode) :
  (∀ node, node ∈ nodes → getDirectiveValues directive node = Ok None) →
  for_each_node directive nodes None = Ok None.
Proof.
  induction nodes as [| node nodes IH]; [done |].
  intros Hall. cbn. rewrite (Hall node) by by left.
  apply IH. intros node' Hnode'. apply Hall. by right.
Qed.

Lemma getDirective_None schema directiveName :
  getDirective schema directiveName = None ↔
  ∀ d, d ∈ schema_directives schema → directive_name d ≠ directiveName.
Proof.
  unfold getDirective. induction (schema_directives schema) as [| d ds IH]; cbn.
  - split; [intros _ d Hd; inversion Hd | done].
  - destruct (String.eqb_spec (directive_name d) directiveName) as [Heq | Hne].
    + split; [done |]. intros Hall. exfalso. apply (Hall d); [left | done].
    + rewrite IH. split.
      * intros Hall d' Hd'. apply elem_of_cons in Hd' as [-> | Hd']; auto.
      * intros Hall d' Hd'. apply Hall. by right.
Qed.

(** C8: the annotation extractor fails by its assertion exactly when it
    is given no definition of the annotation, that is when the schema
    defines no directive of that name; with a definition, its only
    failure is the [GraphQLError] of an occurrence whose arguments do
    not coerce; with a definition and an element that carries no
    occurrence of the annotation, on its declaration or on any extension
    node, it returns [undefined]; and it is a function of its two
    arguments, so a resolver that looks an annotation up draws nothing
    from the random generator. *)
Theorem getDirectiveArgs_fails_iff_no_definition :
  (∀ directive object,
     getDirectiveArgs directive object = Throw AssertionError ↔ directive = None) ∧
  (∀ schema directiveName object,
     getDirectiveArgs (getDirective schema directiveName) object = Throw AssertionError ↔
     ∀ d, d ∈ schema_directives schema → directive_name d ≠ directiveName) ∧
  (∀ directive object e,
     getDirectiveArgs (Some directive) object = Throw e →
     e = GraphQLError ∧ occurrences directive object ≠ 0%nat) ∧
  (∀ directive object,
     occurrences directive object = 0%nat →
     getDirectiveArgs (Some directive) object = Ok None) ∧
  (∀ `{Fake} directive object (s : Seed) args s',
     pure_result (getDirectiveArgs directive object) s = Ok (args, s') → s' = s).
Proof.
  assert (Hfails : ∀ directive object,
    getDirectiveArgs directive object = Throw AssertionError ↔ directive = None).
  { intros [directive |] object; split; [| discriminate | done | done].
    intros He. by apply getDirectiveArgs_error in He. }
  assert (Hzero : ∀ directive object,
    occurrences directive object = 0%nat →
    getDirectiveArgs (Some directive) object = Ok None).
  { intros directive object Hzero.
    assert (Hsite := fun node => occurrences_zero directive object node Hzero).
    unfold getDirectiveArgs, declaration_sites in *.
    destruct (astNode object) as [node |], (extensionNodes object) as [nodes |];
      cbn in *.
    - rewrite (Hsite node) by by left.
      apply for_each_node_None. intros n Hn. apply Hsite. by right.
    - by rewrite (Hsite node) by by left.
    - apply for_each_node_None. intros n Hn. by apply Hsite.
    - done. }
  split; [done |]. split; [| split; [| split; [done |]]].
  - intros schema directiveName object. by rewrite Hfails, getDirective_None.
  - intros directive object e He. split; [by eapply getDirectiveArgs_error |].
    intros Hnone. apply Hzero in Hnone. congruence.
  - intros F directive object s args s' Hrun. unfold pure_result in Hrun.
    destruct (getDirectiveArgs directive object); by inversion Hrun.
Qed.

(** The extractor at an element that carries no [listLength]. *)
Lemma getDirectiveArgs_no_occurrence_witness :
  occurrences listLengthDirective (type_object Cat) = 0%nat ∧
  getDirectiveArgs (Some listLengthDirective) (type_object Cat) = Ok None.
Proof.
  split; [reflexivity |].
  apply (proj1 (proj2 (proj2 (proj2 getDirectiveArgs_fails_iff_no_definition)))).
  reflexivity.
Defined.

(** C2: the extractor does not look at the [extend] fragments of a type.
    It reads a property [extensionNodes], which a type does not have: the
    fragments are in [extensionASTNodes].  So for every type the answer
    is the lookup in the base declaration alone, whatever the fragments
    carry, and it is [undefined] when the base declaration does not
    carry the annotation: at [scalar Zone] with [extend scalar Zone @examples(values:
    ["UTC"])] the answer is [undefined] and the value of a field of type
    [Zone] is the placeholder; at [scalar Era @examples(values: ["old"])]
    with [extend scalar Era @examples(values: ["new"])] the answer is the
    value of the base declaration. *)
Theorem getDirectiveArgs_misses_extension_fragments :
  (∀ directive type,
     getDirectiveArgs (Some directive) (type_object type) =
       type_annotation directive type) ∧
  (∀ directive type type',
     type_astNode type = type_astNode type' →
     getDirectiveArgs (Some directive) (type_object type) =
       getDirectiveArgs (Some directive) (type_object type')) ∧
  (∀ directive type base fragments fragment,
     type_astNode type = Some base →
     ¬ carries directive base →
     extensionASTNodes type = Some fragments →
     fragment ∈ fragments → carries directive fragment →
     getDirectiveArgs (Some directive) (type_object type) = Ok None) ∧
  (type_astNode Zone = Some plain ∧
   extensionASTNodes Zone = Some [with_directive "examples" zoneExamples] ∧
   getDirectiveValues examplesDirective (with_directive "examples" zoneExamples) =
     Ok (Some zoneExamples) ∧
   getDirectiveArgs (Some examplesDirective) (type_object Zone) = Ok None ∧
   fakeValueOfType (H := mersenne) sampleSchema zoneField (NamedType Zone) [3] =
     Ok (VStr "<Zone>", [3])) ∧
  (type_astNode Era = Some (with_directive "examples" {[ "values" := VArr [VStr "old"] ]}) ∧
   extensionASTNodes Era =
     Some [with_directive "examples" {[ "values" := VArr [VStr "new"] ]}] ∧
   getDirectiveArgs (Some examplesDirective) (type_object Era) =
     Ok (Some {[ "values" := VArr [VStr "old"] ]})).
Proof.
  split; [exact getDirectiveArgs_type |]. split.
  - intros directive type type' Hbase.
    rewrite !getDirectiveArgs_type. unfold type_annotation. by rewrite Hbase.
  - split.
    + intros directive type base fragments fragment Hbase Hnot _ _ _.
      rewrite getDirectiveArgs_type. unfold type_annotation. rewrite Hbase.
      apply getDirectiveValues_None. intros d Hd Hname.
      apply Hnot. by exists d.
    + split; repeat split; reflexivity.
Qed.

(** ** The callback of a named type *)

Lemma first_found_app {A} (l : list (Result (option A))) (y : Result (option A)) :
  first_found (l ++ [y]) =
    match first_found l with
    | Ok None => y
    | found => found
    end.
Proof.
  induction l as [| [[a |] | e] l IH]; cbn; [| done | done | done].
  by destruct y as [[a |] | e].
Qed.

Section Callbacks.
Context `{Fake}.
Variable schema : GraphQLSchema.

Lemma or_else_run {A} (a b : M (option A)) s l y :
  a s = pure_result (first_found l) s → b s = pure_result y s →
  (a ||| b) s = pure_result (first_found (l ++ [y])) s.
Proof.
  intros Ha Hb. rewrite first_found_app. unfold or_else, bind. rewrite Ha.
  by destruct (first_found l) as [[x |] | e]; cbn.
Qed.

Lemma getExampleValueCB_run examples object s :
  getDirective schema "examples" = Some examples →
  getExampleValueCB schema object s =
    pure_result (callback_of ExampleCB (getDirectiveArgs (Some examples) object)) s.
Proof.
  intros Hdef. unfold getExampleValueCB, bind, pure_result, ret, callback_of.
  rewrite Hdef. by destruct (getDirectiveArgs (Some examples) object).
Qed.

Lemma getFakeValueCB_run fake object s :
  getDirective schema "fake" = Some fake →
  getFakeValueCB schema object s =
    pure_result (callback_of FakeCB (getDirectiveArgs (Some fake) object)) s.
Proof.
  intros Hdef. unfold getFakeValueCB, bind, pure_result, ret, callback_of.
  rewrite Hdef. by destruct (getDirectiveArgs (Some fake) object).
Qed.

End Callbacks.

(** The callback chosen for a named type, when the two directives are
    defined in the schema. *)
Lemma getValueCB_run `{Fake} (schema : GraphQLSchema) (fieldDef : GraphQLField)
    (type : GraphQLNamedType) (s : Seed) (examples fake : GraphQLDirective) :
  getDirective schema "examples" = Some examples →
  getDirective schema "fake" = Some fake →
  getValueCB schema fieldDef type s =
    pure_result
      (first_found
         [ callback_of ExampleCB (field_annotation examples fieldDef);
           callback_of FakeCB (field_annotation fake fieldDef);
           callback_of ExampleCB (getDirectiveArgs (Some examples) (type_object type));
           callback_of FakeCB (getDirectiveArgs (Some fake) (type_object type)) ]) s.
Proof.
  intros Hex Hfk. unfold getValueCB.
  pose proof (getExampleValueCB_run schema examples (field_object fieldDef) s Hex) as E1.
  pose proof (getFakeValueCB_run schema fake (field_object fieldDef) s Hfk) as F1.
  pose proof (getExampleValueCB_run schema examples (type_object type) s Hex) as E2.
  pose proof (getFakeValueCB_run schema fake (type_object type) s Hfk) as F2.
  rewrite getDirectiveArgs_field in E1, F1.
  assert (E0 : getExampleValueCB schema (field_object fieldDef) s =
               pure_result
                 (first_found [callback_of ExampleCB (field_annotation examples fieldDef)]) s).
  { rewrite E1. f_equal. apply (eq_sym (first_found_app [] _)). }
  exact (or_else_run _ _ _ _ _ (or_else_run _ _ _ _ _ (or_else_run _ _ _ _ _ E0 F1) E2) F2).
Qed.



(** ** The field resolver and the real value *)

(** C5: a real value that is an error is returned as it is, for every
    schema, parent type, field and arguments: the random generator is
    left untouched (nothing is synthesized), no directive definition is
    needed (no annotation is looked up), and under the mutation type the
    arguments are not merged in. *)
Theorem error_is_returned_unchanged `{Fake} (message : string)
    (args : gmap string Value) (info : GraphQLResolveInfo) (s : Seed) :
  fakeFieldResolver (VError message) args info s = Ok (VError message, s).
Proof. reflexivity. Qed.

(** C10: outside the mutation type, a real value other than [undefined]
    ([null], an empty array, an empty string, any other value) is
    returned as it is and nothing is drawn from the random generator;
    with [undefined] the result is the synthesized value. *)
Theorem real_value_is_returned `{Fake} (defaultResolved : Value)
    (args : gmap string Value) (info : GraphQLResolveInfo)
    (fieldDef : GraphQLField) (s : Seed) :
  getFields (parentType info) !! fieldName info = Some fieldDef →
  isMutationType info = false →
  (defaultResolved ≠ VUndefined →
     fakeFieldResolver defaultResolved args info s = Ok (defaultResolved, s)) ∧
  fakeFieldResolver VUndefined args info s =
    fakeValueOfType (schema info) fieldDef (field_type fieldDef) s.
Proof.
  intros Hfield Hmut. unfold fakeFieldResolver. rewrite Hfield, Hmut. cbn. split.
  - intros Hdef. by destruct defaultResolved.
  - unfold bind. by destruct (fakeValueOfType _ _ _ s) as [[v s'] | e].
Qed.

(** The real values [null], [[]] and the empty string of a query field. *)
Lemma real_value_is_returned_witness :
  getFields (parentType (sampleInfo QueryType "pets")) !! "pets" = Some petsField ∧
  isMutationType (sampleInfo QueryType "pets") = false ∧
  fakeFieldResolver VNull ∅ (sampleInfo QueryType "pets") [7] = Ok (VNull, [7]) ∧
  fakeFieldResolver (VArr []) ∅ (sampleInfo QueryType "pets") [7] = Ok (VArr [], [7]) ∧
  fakeFieldResolver (VStr "") ∅ (sampleInfo QueryType "pets") [7] = Ok (VStr "", [7]).
Proof.
  do 2 (split; [reflexivity |]).
  split; [| split];
    apply (proj1 (real_value_is_returned (H := mersenne) _ ∅
                    (sampleInfo QueryType "pets") petsField [7] eq_refl eq_refl));
    discriminate.
Defined.

(** C3: under the mutation type, for a field of composite type whose
    resolved value is a plain object, the result is an object in which
    each property is that of the echoed value when it has it, and that
    of the resolved object otherwise; the echoed value is the [input]
    argument when it is the only argument and a plain object, and the
    object of all the arguments otherwise.  With the arguments
    [{input: {name: "x"}}] the result has [name: "x"]. *)
Theorem mutation_echo `{Fake} (defaultResolved : Value) (args : gmap string Value)
    (info : GraphQLResolveInfo) (fieldDef : GraphQLField) (s s' : Seed)
    (resolved : Value) :
  getFields (parentType info) !! fieldName info = Some fieldDef →
  isMutationType info = true →
  isCompositeType (getNullableType (field_type fieldDef)) = true →
  instanceof_Error defaultResolved = false →
  resolve defaultResolved info fieldDef s = Ok (resolved, s') →
  isPlainObject resolved = true →
  ∃ result,
    fakeFieldResolver defaultResolved args info s = Ok (VObj result, s') ∧
    (∀ key, result !! key =
       match own_props (echoed args) !! key with
       | Some v => Some v
       | None => own_props resolved !! key
       end) ∧
    (∀ inputArg, size args = 1%nat → args !! "input" = Some inputArg →
       isPlainObject inputArg = true → echoed args = inputArg) ∧
    (size args ≠ 1%nat ∨ isPlainObject (prop "input" args) = false →
       echoed args = VObj args) ∧
    (args = {[ "input" := VObj {[ "name" := VStr "x" ]} ]} →
       result !! "name" = Some (VStr "x")).
Proof.
  intros Hfield Hmut Hcomp Herr Hres Hplain.
  exists (spread (own_props resolved) (own_props (echoed args))).
  assert (Hkey : ∀ key,
    spread (own_props resolved) (own_props (echoed args)) !! key =
      match own_props (echoed args) !! key with
      | Some v => Some v
      | None => own_props resolved !! key
      end).
  { intros key. unfold spread. rewrite lookup_union.
    by destruct (own_props (echoed args) !! key), (own_props resolved !! key). }
  split; [| split; [done | split; [| split]]].
  - unfold fakeFieldResolver. rewrite Hfield, Herr.
    rewrite (bind_Ok _ _ _ _ _ Hres). by rewrite Hmut, Hcomp, Hplain.
  - intros inputArg Hsize Hinput Hobj. unfold echoed, prop.
    rewrite Hsize, Hinput. cbn. by rewrite Hobj.
  - intros Hother. unfold echoed.
    destruct Hother as [Hsize | Hobj].
    + by apply Nat.eqb_neq in Hsize as ->.
    + rewrite Hobj. by rewrite andb_false_r.
  - intros ->. rewrite Hkey. reflexivity.
Qed.

(** [addCat(input: {name: "x"})] on the sample schema: the synthesized
    object has the [name] of the [examples] of [Cat], and the result has
    the [name] of the input. *)
Lemma mutation_echo_witness :
  resolve (H := mersenne) VUndefined (sampleInfo MutationType "addCat") addCatField [9] =
    Ok (VObj {[ "__typename" := VStr "Cat"; "name" := VStr "Tom" ]}, []) ∧
  ∃ result,
    fakeFieldResolver VUndefined {[ "input" := VObj {[ "name" := VStr "x" ]} ]}
      (sampleInfo MutationType "addCat") [9] = Ok (VObj result, []) ∧
    result !! "name" = Some (VStr "x") ∧
    result !! "__typename" = Some (VStr "Cat").
Proof.
  split; [reflexivity |].
  destruct (mutation_echo (H := mersenne) VUndefined
              {[ "input" := VObj {[ "name" := VStr "x" ]} ]}
              (sampleInfo MutationType "addCat") addCatField [9] []
              (VObj {[ "__typename" := VStr "Cat"; "name" := VStr "Tom" ]})
              eq_refl eq_refl eq_refl eq_refl eq_refl eq_refl)
    as (result & Hrun & Hkey & _ & _ & Hname).
  exists result. split; [exact Hrun |]. split; [by apply Hname |].
  rewrite Hkey. reflexivity.
Defined.

(** ** Leaf values *)

Lemma registry_read_inherited `{Fake} (typeName : string) :
  stdScalarFakers typeName = None →
  registry_read typeName = pure_result <$> Object_prototype typeName.
Proof. intros Hown. unfold registry_read. by rewrite Hown. Qed.

Lemma getValueCB_nothing `{Fake} schema fieldDef type s examples fake :
  getDirective schema "examples" = Some examples →
  getDirective schema "fake" = Some fake →
  field_annotation examples fieldDef = Ok None →
  field_annotation fake fieldDef = Ok None →
  getDirectiveArgs (Some examples) (type_object type) = Ok None →
  getDirectiveArgs (Some fake) (type_object type) = Ok None →
  getValueCB schema fieldDef type s = Ok (None, s).
Proof.
  intros Hex Hfk E1 F1 E2 F2.
  rewrite (getValueCB_run schema fieldDef type s examples fake Hex Hfk).
  by rewrite E1, F1, E2, F2.
Qed.

(** C7: for a scalar type that has no generator of its own in the
    registry, the leaf value is the name of the type between angle
    brackets, and nothing is drawn, when the name is not that of a
    property that the registry inherits; so is then the synthesized value
    of a field of that type when neither the field nor the type has an
    [examples] or a [fake] annotation.  When the name is that of an
    inherited property, the property is taken for a generator and
    called: for [scalar constructor] the value is an empty object, and
    for [scalar valueOf] the synthesis fails with a [TypeError]. *)
Theorem unknown_scalar_inherited_property `{Fake} :
  (∀ type s,
     kind type = ScalarType → stdScalarFakers (name type) = None →
     Object_prototype (name type) = None →
     fakeLeafValueCB type s = Ok (VStr ("<" +:+ name type +:+ ">"), s)) ∧
  (∀ schema fieldDef type s examples fake,
     kind type = ScalarType → stdScalarFakers (name type) = None →
     Object_prototype (name type) = None →
     getDirective schema "examples" = Some examples →
     getDirective schema "fake" = Some fake →
     field_annotation examples fieldDef = Ok None →
     field_annotation fake fieldDef = Ok None →
     getDirectiveArgs (Some examples) (type_object type) = Ok None →
     getDirectiveArgs (Some fake) (type_object type) = Ok None →
     fakeValueOfType schema fieldDef (NamedType type) s =
       Ok (VStr ("<" +:+ name type +:+ ">"), s)) ∧
  (∀ type s,
     kind type = ScalarType → stdScalarFakers (name type) = None →
     name type = "constructor" →
     fakeLeafValueCB type s = Ok (VObj ∅, s)) ∧
  (∀ type s,
     kind type = ScalarType → stdScalarFakers (name type) = None →
     name type = "valueOf" →
     fakeLeafValueCB type s = Throw TypeError) ∧
  (∀ schema fieldDef type s examples fake,
     kind type = ScalarType → stdScalarFakers (name type) = None →
     name type = "valueOf" →
     getDirective schema "examples" = Some examples →
     getDirective schema "fake" = Some fake →
     field_annotation examples fieldDef = Ok None →
     field_annotation fake fieldDef = Ok None →
     getDirectiveArgs (Some examples) (type_object type) = Ok None →
     getDirectiveArgs (Some fake) (type_object type) = Ok None →
     fakeValueOfType schema fieldDef (NamedType type) s = Throw TypeError).
Proof.
  assert (Hleaf : ∀ type s,
    kind type = ScalarType → stdScalarFakers (name type) = None →
    fakeLeafValueCB type s =
      match Object_prototype (name type) with
      | Some inherited => pure_result inherited s
      | None => Ok (VStr ("<" +:+ name type +:+ ">"), s)
      end).
  { intros type s Hkind Hown. unfold fakeLeafValueCB.
    rewrite Hkind, (registry_read_inherited _ Hown).
    by destruct (Object_prototype (name type)). }
  assert (Hfield : ∀ schema fieldDef type s examples fake,
    kind type = ScalarType →
    getDirective schema "examples" = Some examples →
    getDirective schema "fake" = Some fake →
    field_annotation examples fieldDef = Ok None →
    field_annotation fake fieldDef = Ok None →
    getDirectiveArgs (Some examples) (type_object type) = Ok None →
    getDirectiveArgs (Some fake) (type_object type) = Ok None →
    fakeValueOfType schema fieldDef (NamedType type) s = fakeLeafValueCB type s).
  { intros schema fieldDef type s examples fake Hkind Hex Hfk E1 F1 E2 F2.
    cbn [fakeValueOfType].
    rewrite (bind_Ok _ _ _ _ _
               (getValueCB_nothing schema fieldDef type s examples fake Hex Hfk E1 F1 E2 F2)).
    unfold isLeafType. by rewrite Hkind. }
  split; [| split; [| split; [| split]]].
  - intros type s Hkind Hown Hinh. by rewrite Hleaf, Hinh.
  - intros schema fieldDef type s examples fake Hkind Hown Hinh Hex Hfk E1 F1 E2 F2.
    rewrite (Hfield schema fieldDef type s examples fake) by done.
    by rewrite Hleaf, Hinh.
  - intros type s Hkind Hown Hname. by rewrite Hleaf, Hname.
  - intros type s Hkind Hown Hname. by rewrite Hleaf, Hname.
  - intros schema fieldDef type s examples fake Hkind Hown Hname Hex Hfk E1 F1 E2 F2.
    rewrite (Hfield schema fieldDef type s examples fake) by done.
    by rewrite Hleaf, Hname.
Qed.

(** The fields [stamp: Date], [made: constructor] and [worth: valueOf]
    of the sample schema, with the sample registry. *)
Lemma unknown_scalar_inherited_property_witness :
  fakeValueOfType sampleSchema stampField (NamedType Date) [3] = Ok (VStr "<Date>", [3]) ∧
  fakeLeafValueCB (H := mersenne) constructorType [3] = Ok (VObj ∅, [3]) ∧
  fakeValueOfType sampleSchema madeField (NamedType constructorType) [3] =
    Ok (VObj ∅, [3]) ∧
  fakeValueOfType sampleSchema worthField (NamedType valueOfType) [3] = Throw TypeError.
Proof.
  split; [| split; [| split]].
  - apply (proj1 (proj2 (unknown_scalar_inherited_property (H := mersenne)))
             sampleSchema stampField Date [3] examplesDirective fakeDirective);
      reflexivity.
  - apply (proj1 (proj2 (proj2 (unknown_scalar_inherited_property (H := mersenne))))
             constructorType [3]); reflexivity.
  - reflexivity.
  - apply (proj2 (proj2 (proj2 (proj2 (unknown_scalar_inherited_property (H := mersenne)))))
             sampleSchema worthField valueOfType [3] examplesDirective fakeDirective);
      reflexivity.
Defined.

(** ** The placeholder of the extension text *)

Lemma includes_app_r (pattern a s : string) :
  includes pattern s = true → includes pattern (a +:+ s) = true.
Proof.
  intros Hs. induction a as [| c a IH]; [done |].
  change (includes pattern (String c a +:+ s))
    with (String.prefix pattern (String c (a +:+ s)) || includes pattern (a +:+ s)).
  rewrite IH. apply orb_true_r.
Qed.

(** Only the first placeholder is replaced: the text after it is kept as
    it stands. *)
Lemma String_replace_first (a replacement rest : string) :
  (∀ c, c ∈ String.list_ascii_of_string a → c ≠ "<"%char) →
  String_replace "<RootTypeName>" replacement (a +:+ "<RootTypeName>" +:+ rest) =
    a +:+ replacement +:+ rest.
Proof.
  induction a as [| c a IH]; intros Hno.
  - by destruct rest.
  - assert (Hc : String.prefix "<RootTypeName>"
                   (String c (a +:+ "<RootTypeName>" +:+ rest)) = false).
    { cbn -[Ascii.ascii_dec]. destruct (Ascii.ascii_dec "<" c) as [<- | _]; [| done].
      exfalso. apply (Hno "<"%char); [by left | done]. }
    change (String_replace "<RootTypeName>" replacement
              (String c a +:+ "<RootTypeName>" +:+ rest))
      with (if String.prefix "<RootTypeName>" (String c (a +:+ "<RootTypeName>" +:+ rest))
            then replacement +:+
                 skip (String.length "<RootTypeName>")
                      (String c (a +:+ "<RootTypeName>" +:+ rest))
            else String c (String_replace "<RootTypeName>" replacement
                             (a +:+ "<RootTypeName>" +:+ rest))).
    rewrite Hc, IH; [done |].
    intros c' Hc'. apply Hno. by right.
Qed.

(** C9: in an extension text with a second placeholder after the first,
    only the first is replaced by the name of the query type, and the
    text still holds a placeholder; so it is with two
    [extend type <RootTypeName>] blocks over a base schema whose query
    type is [Query]. *)
Theorem second_placeholder_is_left :
  (∀ schema queryTypeName (a rest : string),
     getQueryType schema = Some queryTypeName →
     (∀ c, c ∈ String.list_ascii_of_string a → c ≠ "<"%char) →
     includes "<RootTypeName>" rest = true →
     runServer_extensionSDL schema (Some (a +:+ "<RootTypeName>" +:+ rest)) =
       Ok (Some (a +:+ queryTypeName +:+ rest)) ∧
     includes "<RootTypeName>" (a +:+ queryTypeName +:+ rest) = true) ∧
  runServer_extensionSDL sampleSchema
    (Some "extend type <RootTypeName> { a: Int } extend type <RootTypeName> { b: Int }") =
    Ok (Some "extend type Query { a: Int } extend type <RootTypeName> { b: Int }") ∧
  includes "<RootTypeName>"
    "extend type Query { a: Int } extend type <RootTypeName> { b: Int }" = true.
Proof.
  split; [| split; reflexivity].
  intros schema queryTypeName a rest Hquery Hno Hrest. split.
  - unfold runServer_extensionSDL. rewrite Hquery.
    by rewrite String_replace_first.
  - by do 2 apply includes_app_r.
Qed.

(** ** Lists *)

Section Lists.
Context `{Fake}.

Lemma Array_fill_map_inv n (item : M Value) s v s' :
  Array_fill_map n item s = Ok (v, s') →
  ∃ items, v = VArr items ∧ Z.of_nat (length items) = n.
Proof.
  unfold Array_fill_map. intros Hrun.
  destruct ((n <? 0) || (2 ^ 32 - 1 <? n)) eqn:Hn; [discriminate |].
  apply bind_inv_Ok in Hrun as (items & s1 & Hitems & Hret).
  unfold ret in Hret. inversion Hret; subst.
  exists items. split; [done |].
  apply repeatM_length in Hitems. apply orb_false_elim in Hn as [Hn _]. lia.
Qed.

Lemma Array_fill_map_total n (item : M Value) :
  0 ≤ n < 2 ^ 32 →
  (∀ s, ∃ v s', item s = Ok (v, s')) →
  ∀ s, ∃ items s', Array_fill_map n item s = Ok (VArr items, s').
Proof.
  intros Hn Hitem s. unfold Array_fill_map.
  replace ((n <? 0) || (2 ^ 32 - 1 <? n)) with false by lia.
  destruct (repeatM_total (Z.to_nat n) item Hitem s) as (items & s' & Hitems).
  exists items, s'. by rewrite (bind_Ok _ _ _ _ _ Hitems).
Qed.

Lemma getListLength_run schema fieldDef listLength annotation s :
  getDirective schema "listLength" = Some listLength →
  field_annotation listLength fieldDef = Ok annotation →
  getListLength schema (field_object fieldDef) s =
    Ok ((random_number (listLength_bounds annotation).1
           (listLength_bounds annotation).2 s).1,
        (random_number (listLength_bounds annotation).1
           (listLength_bounds annotation).2 s).2).
Proof.
  intros Hdef Hann. unfold getListLength, bind, pure_result. rewrite Hdef.
  rewrite getDirectiveArgs_field, Hann.
  destruct annotation; cbn; unfold getRandomInt; by destruct (random_number _ _ s).
Qed.

Lemma fakeValueOfType_nullable schema fieldDef type s :
  fakeValueOfType schema fieldDef type s =
    fakeValueOfType schema fieldDef (getNullableType type) s.
Proof. by destruct type. Qed.

(** A list is not a composite type: the value of a list field is the
    synthesized one, under the mutation type too. *)
Lemma fakeFieldResolver_list args info fieldDef ofType s :
  getFields (parentType info) !! fieldName info = Some fieldDef →
  getNullableType (field_type fieldDef) = GraphQLList ofType →
  fakeFieldResolver VUndefined args info s =
    fakeValueOfType (schema info) fieldDef (GraphQLList ofType) s.
Proof.
  intros Hfield Hlist. unfold fakeFieldResolver. rewrite Hfield. cbn [instanceof_Error resolve].
  rewrite Hlist. cbn [isCompositeType]. rewrite andb_false_r. cbn [andb].
  rewrite <- Hlist, <- fakeValueOfType_nullable. unfold bind.
  by destruct (fakeValueOfType _ _ _ s) as [[v s'] | e].
Qed.

(** The array of a list field has the length that [getRandomInt] drew
    between the bounds of the field. *)
Lemma fakeValueOfType_list_length schema fieldDef ofType listLength annotation s v s' :
  getDirective schema "listLength" = Some listLength →
  field_annotation listLength fieldDef = Ok annotation →
  fakeValueOfType schema fieldDef (GraphQLList ofType) s = Ok (v, s') →
  let bounds := listLength_bounds annotation in
  ∃ items, v = VArr items ∧
    Z.of_nat (length items) = (random_number bounds.1 bounds.2 s).1.
Proof.
  intros Hdef Hann Hrun bounds. cbn [fakeValueOfType] in Hrun.
  apply bind_inv_Ok in Hrun as (n & s1 & Hn & Hrun).
  rewrite (getListLength_run _ _ _ _ _ Hdef Hann) in Hn.
  apply Array_fill_map_inv in Hrun as (items & -> & Hlen).
  exists items. split; [done |]. rewrite Hlen. subst bounds.
  by inversion Hn.
Qed.

End Lists.

(** C4 (amended): for a list field synthesized without a real value, the
    array that is produced has a length between [min] and [max] when the
    field carries [listLength] with [min <= max], and between 2 and 4
    when the field carries no [listLength].  An array is indeed produced
    when the items can be synthesized and the bounds of a [listLength]
    are not negative. *)
Theorem list_length_in_range `{Fake} `{!RandomNumberInRange}
    (args : gmap string Value) (info : GraphQLResolveInfo)
    (fieldDef : GraphQLField) (ofType : GraphQLType)
    (listLength : GraphQLDirective) (s : Seed) :
  getFields (parentType info) !! fieldName info = Some fieldDef →
  getNullableType (field_type fieldDef) = GraphQLList ofType →
  getDirective (schema info) "listLength" = Some listLength →
  (∀ annotation (min max : Z) v s',
     field_annotation listLength fieldDef = Ok (Some annotation) →
     annotation !! "min" = Some (VNum min) →
     annotation !! "max" = Some (VNum max) →
     min ≤ max →
     fakeFieldResolver VUndefined args info s = Ok (v, s') →
     ∃ items, v = VArr items ∧ min ≤ Z.of_nat (length items) ≤ max) ∧
  (∀ v s',
     field_annotation listLength fieldDef = Ok None →
     fakeFieldResolver VUndefined args info s = Ok (v, s') →
     ∃ items, v = VArr items ∧ 2 ≤ Z.of_nat (length items) ≤ 4) ∧
  ((∀ s1, ∃ v s2, fakeValueOfType (schema info) fieldDef ofType s1 = Ok (v, s2)) →
   (field_annotation listLength fieldDef = Ok None ∨
    ∃ annotation (min max : Z),
      field_annotation listLength fieldDef = Ok (Some annotation) ∧
      annotation !! "min" = Some (VNum min) ∧
      annotation !! "max" = Some (VNum max) ∧
      0 ≤ min ≤ max ∧ max < 2 ^ 31) →
   ∃ items s', fakeFieldResolver VUndefined args info s = Ok (VArr items, s')).
Proof.
  intros Hfield Hlist Hdef.
  rewrite (fakeFieldResolver_list args info fieldDef ofType s Hfield Hlist).
  split; [| split].
  - intros annotation min max v s' Hann Hmin Hmax Hle Hrun.
    destruct (fakeValueOfType_list_length _ _ _ _ _ _ _ _ Hdef Hann Hrun)
      as (items & -> & Hlen).
    exists items. split; [done |].
    cbn in Hlen. unfold prop in Hlen.
    rewrite Hmin, Hmax in Hlen. cbn in Hlen. rewrite Hlen.
    by apply random_number_range.
  - intros v s' Hann Hrun.
    destruct (fakeValueOfType_list_length _ _ _ _ _ _ _ _ Hdef Hann Hrun)
      as (items & -> & Hlen).
    exists items. split; [done |].
    cbn in Hlen. rewrite Hlen.
    by apply random_number_range.
  - intros Hitem Hbounds. cbn [fakeValueOfType].
    destruct Hbounds as [Hann | (annotation & min & max & Hann & Hmin & Hmax & Hle & Hmax31)];
      rewrite (bind_Ok _ _ _ _ _ (getListLength_run _ _ _ _ s Hdef Hann));
      (apply Array_fill_map_total; [| done]); cbn.
    + pose proof (random_number_range 2 4 s ltac:(lia)). lia.
    + unfold prop. rewrite Hmin, Hmax. cbn.
      pose proof (random_number_range min max s ltac:(lia)). lia.
Qed.

(** [pets: [Pet] @listLength(min: 1, max: 1)] on the sample schema, and
    [stamps: [Date]!], which has no [listLength]. *)
Lemma list_length_in_range_witness :
  (∃ items,
     fakeFieldResolver VUndefined ∅ (sampleInfo QueryType "pets") [5; 4000000000; 7] =
       Ok (VArr items, [7]) ∧
     1 ≤ Z.of_nat (length items) ≤ 1) ∧
  (∃ items s',
     fakeFieldResolver VUndefined ∅ (sampleInfo QueryType "stamps") [5] =
       Ok (VArr items, s')).
Proof.
  split; cycle 1.
  { apply (proj2 (proj2 (list_length_in_range (H := mersenne) ∅
                           (sampleInfo QueryType "stamps") stampsField (NamedType Date)
                           listLengthDirective [5] eq_refl eq_refl eq_refl))).
    - intros s1. by exists (VStr "<Date>"), s1.
    - by left. }
  destruct (proj1 (list_length_in_range (H := mersenne) ∅ (sampleInfo QueryType "pets")
                     petsField (NamedType Pet) listLengthDirective [5; 4000000000; 7]
                     eq_refl eq_refl eq_refl)
              {[ "min" := VNum 1; "max" := VNum 1 ]} 1 1
              (VArr [VObj {[ "__typename" := VStr "Dog" ]}]) [7]
              eq_refl eq_refl eq_refl ltac:(lia) eq_refl)
    as (items & Hv & Hlen).
  exists items. split; [| exact Hlen].
  rewrite <- Hv. reflexivity.
Defined.

(** C4 as stated fails on [weird: [Int] @listLength(min: 3, max: 1)]: an
    array of two items is produced, and no length is between 3 and 1. *)
Lemma list_length_outside_inverted_bounds :
  field_annotation listLengthDirective weirdField =
    Ok (Some {[ "min" := VNum 3; "max" := VNum 1 ]}) ∧
  fakeFieldResolver VUndefined ∅ (sampleInfo QueryType "weird") [5; 4000000000; 7] =
    Ok (VArr [VNum 93132; VNum 0], []) ∧
  ¬ (3 ≤ Z.of_nat (length [VNum 93132; VNum 0]) ≤ 1).
Proof.
  split; [reflexivity |]. split; [reflexivity |]. cbn. lia.
Qed.

(** ** Abstract types *)

Section AbstractTypes.
Context `{Fake}.
Variable schema : GraphQLSchema.
Variable abstractType : GraphQLNamedType.

Lemma fakeTypeResolver_run s :
  fakeTypeResolver None schema abstractType s =
    let possible := getPossibleTypes schema abstractType in
    let drawn := random_number (VNum 0) (VNum (Z.of_nat (length possible) - 1)) s in
    Ok (TypeObject <$> (if drawn.1 <? 0 then None else possible !! Z.to_nat drawn.1),
        drawn.2).
Proof.
  unfold fakeTypeResolver. by rewrite (bind_Ok _ _ _ _ _ (getRandomItem_run _ s)).
Qed.

(** With distinct names, a possible type is the chosen one exactly when
    its index is the one drawn. *)
Lemma chosen_name_index (i : nat) type s :
  NoDup (name <$> getPossibleTypes schema abstractType) →
  getPossibleTypes schema abstractType !! i = Some type →
  chosen_name schema abstractType s = Some (name type) ↔
  (random_number (VNum 0)
     (VNum (Z.of_nat (length (getPossibleTypes schema abstractType)) - 1)) s).1 = Z.of_nat i.
Proof.
  intros Hnodup Hi. unfold chosen_name. rewrite fakeTypeResolver_run. cbn zeta.
  set (possible := getPossibleTypes schema abstractType) in *.
  set (d := (random_number (VNum 0) (VNum (Z.of_nat (length possible) - 1)) s).1).
  destruct (Z.ltb_spec d 0) as [Hneg | Hpos]; cbn.
  - split; [discriminate | lia].
  - split.
    + destruct (possible !! Z.to_nat d) as [type' |] eqn:Hd; [| discriminate].
      cbn. intros [= Hname].
      assert (Z.to_nat d = i); [| lia].
      apply (NoDup_lookup (name <$> possible) _ _ (name type)); [done | |].
      * by rewrite list_lookup_fmap, Hd, <- Hname.
      * by rewrite list_lookup_fmap, Hi.
    + intros ->. by rewrite Nat2Z.id, Hi.
Qed.

End AbstractTypes.

(** C6 (amended): when the default resolver has an answer, it is returned
    as it is; otherwise, if the abstract type has at least one possible
    type, the result is the possible type at the index drawn in
    [0 .. length - 1], a member of the list; it is uniform over the
    possible types whenever the draw of the index is uniform; a
    synthesized value of the abstract type, with no annotation, is tagged
    with the name of a possible type; and with no possible type the
    result is [undefined]. *)
Theorem fakeTypeResolver_possible_type `{Fake} `{!RandomNumberInRange}
    (schema : GraphQLSchema) (abstractType : GraphQLNamedType) (s : Seed) :
  let possible := getPossibleTypes schema abstractType in
  (∀ r, fakeTypeResolver (Some r) schema abstractType s = Ok (Some r, s)) ∧
  (possible ≠ [] →
   ∃ type s',
     fakeTypeResolver None schema abstractType s = Ok (Some (TypeObject type), s') ∧
     type ∈ possible) ∧
  (∀ seeds type1 type2,
     NoDup (name <$> possible) →
     draws_uniformly (length possible) seeds →
     type1 ∈ possible → type2 ∈ possible →
     tally (chosen_name schema abstractType) (Some (name type1)) seeds =
     tally (chosen_name schema abstractType) (Some (name type2)) seeds) ∧
  (∀ fieldDef,
     isAbstractType abstractType = true → possible ≠ [] →
     getValueCB schema fieldDef abstractType s = Ok (None, s) →
     ∃ type s',
       fakeValueOfType schema fieldDef (NamedType abstractType) s =
         Ok (VObj {[ "__typename" := VStr (name type) ]}, s') ∧
       type ∈ possible) ∧
  (possible = [] →
   ∃ s', fakeTypeResolver None schema abstractType s = Ok (None, s')).
Proof.
  intros possible.
  assert (Hdraw : possible ≠ [] →
    ∃ type, possible !! Z.to_nat
              (random_number (VNum 0) (VNum (Z.of_nat (length possible) - 1)) s).1 = Some type ∧
            0 ≤ (random_number (VNum 0) (VNum (Z.of_nat (length possible) - 1)) s).1).
  { intros Hne.
    assert (0 < length possible)%nat by (destruct possible; [done | cbn; lia]).
    pose proof (random_number_range 0 (Z.of_nat (length possible) - 1) s ltac:(lia)) as Hd.
    destruct (lookup_lt_is_Some_2 possible
                (Z.to_nat (random_number (VNum 0) (VNum (Z.of_nat (length possible) - 1)) s).1)
                ltac:(lia)) as [type Htype].
    exists type. split; [done | lia]. }
  split; [done |]. split; [| split; [| split]]; cycle 3.
  { intros Hempty. rewrite fakeTypeResolver_run. cbn zeta. fold possible.
    rewrite Hempty. eexists. by destruct (_ <? 0). }
  - intros Hne. destruct (Hdraw Hne) as (type & Htype & Hpos).
    exists type. eexists. rewrite fakeTypeResolver_run. cbn zeta. fold possible.
    replace (_ <? 0) with false by lia. rewrite Htype. cbn.
    split; [done |]. by eapply list_elem_of_lookup_2.
  - intros seeds type1 type2 Hnodup Huniform Hin1 Hin2.
    apply list_elem_of_lookup_1 in Hin1 as [i1 Hi1].
    apply list_elem_of_lookup_1 in Hin2 as [i2 Hi2].
    unfold tally.
    rewrite (list_filter_iff _ _ seeds
               (fun s => chosen_name_index schema abstractType i1 type1 s Hnodup Hi1)).
    rewrite (list_filter_iff _ _ seeds
               (fun s => chosen_name_index schema abstractType i2 type2 s Hnodup Hi2)).
    apply lookup_lt_Some in Hi1, Hi2.
    apply Huniform; fold possible; lia.
  - intros fieldDef Habs Hne Hcb. destruct (Hdraw Hne) as (type & Htype & Hpos).
    exists type. eexists. split; [| by eapply list_elem_of_lookup_2].
    cbn [fakeValueOfType]. rewrite (bind_Ok _ _ _ _ _ Hcb).
    assert (isLeafType abstractType = false) as ->.
    { unfold isLeafType, isAbstractType in *. by destruct (kind abstractType). }
    rewrite Habs.
    erewrite bind_Ok; cycle 1.
    { erewrite bind_Ok; [| apply getRandomItem_run]. cbn zeta. fold possible.
      replace (_ <? 0) with false by lia. rewrite Htype. reflexivity. }
    unfold bind, ret, spread. cbn. by rewrite (left_id_L ∅ (∪)).
Qed.

(** The union [Pet = Cat | Dog] of the sample schema: the resolver
    answers one of the two, and over two seeds that draw each index once
    it answers each of them once. *)
Lemma fakeTypeResolver_possible_type_witness :
  (∃ type s',
     fakeTypeResolver None sampleSchema Pet [4000000000] = Ok (Some (TypeObject type), s') ∧
     type ∈ [Cat; Dog]) ∧
  tally (chosen_name sampleSchema Pet) (Some "Cat") [[0]; [2147483648]] =
  tally (chosen_name sampleSchema Pet) (Some "Dog") [[0]; [2147483648]].
Proof.
  pose proof (fakeTypeResolver_possible_type (H := mersenne) sampleSchema Pet [4000000000])
    as Hpet.
  cbv zeta in Hpet. destruct Hpet as (_ & Hmember & Huniform & _).
  split.
  - apply Hmember. discriminate.
  - apply (Huniform [[0]; [2147483648]] Cat Dog).
    + change (name <$> getPossibleTypes sampleSchema Pet) with ["Cat"; "Dog"].
      apply NoDup_cons. split; [| apply NoDup_singleton].
      intros Hin. apply list_elem_of_singleton in Hin. discriminate.
    + change (length (getPossibleTypes sampleSchema Pet)) with 2%nat.
      intros i j Hi Hj.
      assert (Hi' : i = 0 ∨ i = 1) by lia.
      assert (Hj' : j = 0 ∨ j = 1) by lia.
      destruct Hi' as [-> | ->], Hj' as [-> | ->]; reflexivity.
    + by left.
    + right. by left.
Defined.

(** C6 as stated fails in two ways: an interface that no type implements
    has no possible type, and the resolver answers [undefined]; and an
    answer of the default resolver is returned even when it is no
    possible type of the union. *)
Lemma fakeTypeResolver_not_a_possible_type :
  (getPossibleTypes sampleSchema Node = [] ∧
   fakeTypeResolver None sampleSchema Node [5] = Ok (None, [])) ∧
  (fakeTypeResolver (Some (TypeName "Bogus")) sampleSchema Pet [5] =
     Ok (Some (TypeName "Bogus"), [5]) ∧
   "Bogus" ∉ name <$> getPossibleTypes sampleSchema Pet).
Proof.
  split; [split; reflexivity |]. split; [reflexivity |].
  change (name <$> getPossibleTypes sampleSchema Pet) with ["Cat"; "Dog"].
  intros Hin. apply elem_of_cons in Hin as [Hin | Hin]; [discriminate |].
  apply list_elem_of_singleton in Hin. discriminate.
Qed.

(** * Further properties of the resolvers *)

(** ** Random items *)

Lemma getRandomItem_nonempty `{Fake} `{!RandomNumberInRange} {A} (array : list A) s :
  array ≠ [] →
  ∃ x, getRandomItem array s =
         Ok (Some x, (random_number (VNum 0) (VNum (Z.of_nat (length array) - 1)) s).2) ∧
       x ∈ array.
Proof.
  intros Hne. rewrite getRandomItem_run. cbn zeta.
  assert (0 < length array)%nat by (destruct array; [done | cbn; lia]).
  pose proof (random_number_range 0 (Z.of_nat (length array) - 1) s ltac:(lia)) as Hd.
  destruct (lookup_lt_is_Some_2 array
              (Z.to_nat (random_number (VNum 0) (VNum (Z.of_nat (length array) - 1)) s).1)
              ltac:(lia)) as [x Hx].
  exists x. replace (_ <? 0) with false by lia. rewrite Hx.
  split; [done |]. by eapply list_elem_of_lookup_2.
Qed.

Lemma getRandomItem_empty `{Fake} {A} s :
  getRandomItem (@nil A) s = Ok (None, (random_number (VNum 0) (VNum (-1)) s).2).
Proof.
  rewrite getRandomItem_run. cbn zeta. cbn [length].
  by destruct (_ <? 0).
Qed.

(** X1: [getRandomItem] answers an item of the array when the array is
    not empty, and [undefined] on the empty array, whatever the
    generator draws there. *)
Theorem getRandomItem_member `{Fake} `{!RandomNumberInRange} {A} (array : list A) (s : Seed) :
  (array ≠ [] → ∃ x s', getRandomItem array s = Ok (Some x, s') ∧ x ∈ array) ∧
  (array = [] → ∃ s', getRandomItem array s = Ok (None, s')).
Proof.
  split.
  - intros Hne. destruct (getRandomItem_nonempty array s Hne) as (x & Hrun & Hin). eauto.
  - intros ->. eexists. apply getRandomItem_empty.
Qed.

Lemma getRandomItem_member_witness :
  (∃ x s', getRandomItem ["a"; "b"; "c"] [3000000000] = Ok (Some x, s') ∧
           x ∈ ["a"; "b"; "c"]) ∧
  (∃ s', getRandomItem (@nil string) [3000000000] = Ok (None, s')).
Proof.
  split.
  - apply (proj1 (getRandomItem_member (H := mersenne) ["a"; "b"; "c"] [3000000000])).
    discriminate.
  - by apply (proj2 (getRandomItem_member (H := mersenne) (@nil string) [3000000000])).
Defined.

(** ** Enums and examples *)

(** X2: the leaf value of an enum type is the value of one of the values
    the type declares, when it declares one; for an enum type without
    values it is [undefined]. *)
Theorem enum_value_is_declared `{Fake} `{!RandomNumberInRange}
    (type : GraphQLNamedType) (getValues : list GraphQLEnumValue) (s : Seed) :
  kind type = EnumType getValues →
  (getValues ≠ [] →
   ∃ enumValue s', fakeLeafValueCB type s = Ok (value enumValue, s') ∧
                   enumValue ∈ getValues) ∧
  (getValues = [] → ∃ s', fakeLeafValueCB type s = Ok (VUndefined, s')).
Proof.
  intros Hkind. unfold fakeLeafValueCB. rewrite Hkind. split.
  - intros Hne.
    destruct (getRandomItem_nonempty (map value getValues) s) as (v & Hrun & Hin).
    { by destruct getValues. }
    apply list_elem_of_fmap in Hin as (enumValue & -> & Hin).
    exists enumValue. eexists. by rewrite (bind_Ok _ _ _ _ _ Hrun).
  - intros ->. eexists. cbn [map].
    by rewrite (bind_Ok _ _ _ _ _ (getRandomItem_empty s)).
Qed.

(** The enum [Color] of the sample schema. *)
Lemma enum_value_is_declared_witness :
  ∃ enumValue s',
    fakeLeafValueCB Color [3000000000] = Ok (value enumValue, s') ∧
    (enumValue.(enum_value_name) = "RED" ∨ enumValue.(enum_value_name) = "GREEN").
Proof.
  destruct (proj1 (enum_value_is_declared (H := mersenne) Color _ [3000000000] eq_refl))
    as (enumValue & s' & Hrun & Hin); [discriminate |].
  exists enumValue, s'. split; [exact Hrun |].
  apply elem_of_cons in Hin as [-> | Hin]; [by left |].
  apply list_elem_of_singleton in Hin as ->. by right.
Defined.

(** An [examples] annotation on the field is found without looking
    further: the [fake] directive need not be defined. *)
Lemma getValueCB_field_examples `{Fake} schema fieldDef type examples args s :
  getDirective schema "examples" = Some examples →
  field_annotation examples fieldDef = Ok (Some args) →
  getValueCB schema fieldDef type s = Ok (Some (ExampleCB args), s).
Proof.
  intros Hex Hargs. unfold getValueCB.
  do 3 apply or_else_Some.
  rewrite (getExampleValueCB_run schema examples _ s Hex), getDirectiveArgs_field.
  by rewrite Hargs.
Qed.

(** X3: a leaf field with an [examples] annotation resolves to one of
    the listed values, and to [undefined] when the list is empty; only
    the [examples] directive has to be defined in the schema. *)
Theorem examples_value_is_listed `{Fake} `{!RandomNumberInRange}
    (schema : GraphQLSchema) (fieldDef : GraphQLField) (type : GraphQLNamedType)
    (examples : GraphQLDirective) (args : gmap string Value) (values : list Value)
    (s : Seed) :
  getDirective schema "examples" = Some examples →
  field_annotation examples fieldDef = Ok (Some args) →
  args !! "values" = Some (VArr values) →
  isLeafType type = true →
  (values ≠ [] →
   ∃ v s', fakeValueOfType schema fieldDef (NamedType type) s = Ok (v, s') ∧ v ∈ values) ∧
  (values = [] →
   ∃ s', fakeValueOfType schema fieldDef (NamedType type) s = Ok (VUndefined, s')).
Proof.
  intros Hex Hargs Hvalues Hleaf. cbn [fakeValueOfType].
  rewrite (bind_Ok _ _ _ _ _ (getValueCB_field_examples _ _ type _ _ s Hex Hargs)), Hleaf.
  unfold call, prop. rewrite Hvalues. cbn [default from_option id]. split.
  - intros Hne. destruct (getRandomItem_nonempty values s Hne) as (v & Hrun & Hin).
    exists v. eexists. by rewrite (bind_Ok _ _ _ _ _ Hrun).
  - intros ->. eexists. by rewrite (bind_Ok _ _ _ _ _ (getRandomItem_empty s)).
Qed.

(** [mood: String @examples(values: ["happy", "sad"])], in a schema
    that defines [examples] only. *)
Lemma examples_value_is_listed_witness :
  ∃ v s',
    fakeValueOfType examplesOnlySchema moodField (NamedType StringType) [3000000000] =
      Ok (v, s') ∧
    v ∈ [VStr "happy"; VStr "sad"].
Proof.
  apply (proj1 (examples_value_is_listed (H := mersenne) examplesOnlySchema moodField
                  StringType examplesDirective
                  {[ "values" := VArr [VStr "happy"; VStr "sad"] ]}
                  [VStr "happy"; VStr "sad"] [3000000000]
                  eq_refl eq_refl eq_refl eq_refl)).
  discriminate.
Defined.

(** ** Missing directive definitions *)

(** X4: in a schema that defines neither [examples] nor [listLength], the
    synthesis of a value fails with the assertion for every type; a named
    type needs [examples], a list needs [listLength], and a named type
    whose field has no [examples] annotation needs [fake] as well. *)
Theorem synthesis_needs_directive_definitions `{Fake}
    (schema : GraphQLSchema) (fieldDef : GraphQLField) (s : Seed) :
  (∀ type,
     getDirective schema "examples" = None →
     getDirective schema "listLength" = None →
     fakeValueOfType schema fieldDef type s = Throw AssertionError) ∧
  (∀ type,
     getDirective schema "examples" = None →
     fakeValueOfType schema fieldDef (NamedType type) s = Throw AssertionError) ∧
  (∀ ofType,
     getDirective schema "listLength" = None →
     fakeValueOfType schema fieldDef (GraphQLList ofType) s = Throw AssertionError) ∧
  (∀ type examples,
     getDirective schema "examples" = Some examples →
     field_annotation examples fieldDef = Ok None →
     getDirective schema "fake" = None →
     fakeValueOfType schema fieldDef (NamedType type) s = Throw AssertionError).
Proof.
  assert (Hnamed : ∀ type,
    getDirective schema "examples" = None →
    fakeValueOfType schema fieldDef (NamedType type) s = Throw AssertionError).
  { intros type Hex. cbn [fakeValueOfType]. apply bind_Throw.
    unfold getValueCB. do 3 (unfold or_else at 1; apply bind_Throw).
    unfold getExampleValueCB. apply bind_Throw. by rewrite Hex. }
  assert (Hlist : ∀ ofType,
    getDirective schema "listLength" = None →
    fakeValueOfType schema fieldDef (GraphQLList ofType) s = Throw AssertionError).
  { intros ofType Hll. cbn [fakeValueOfType]. apply bind_Throw.
    unfold getListLength. apply bind_Throw. by rewrite Hll. }
  split; [| split; [done | split; [done |]]].
  - intros type Hex Hll. induction type as [type | ofType IH | ofType IH]; auto.
  - intros type examples Hex Hnone Hfk. cbn [fakeValueOfType]. apply bind_Throw.
    unfold getValueCB. do 2 (unfold or_else at 1; apply bind_Throw).
    rewrite or_else_None with (s' := s).
    + unfold getFakeValueCB. apply bind_Throw. by rewrite Hfk.
    + rewrite (getExampleValueCB_run schema examples _ s Hex), getDirectiveArgs_field.
      by rewrite Hnone.
Qed.

(** The schema without directive definitions, and the schema with
    [examples] only on a field that has no annotation. *)
Lemma synthesis_needs_directive_definitions_witness :
  fakeValueOfType bareSchema matrixField (field_type matrixField) [1; 2] =
    Throw AssertionError ∧
  fakeValueOfType examplesOnlySchema stampField (NamedType Date) [1; 2] =
    Throw AssertionError.
Proof.
  split.
  - by apply (proj1 (synthesis_needs_directive_definitions (H := mersenne)
                       bareSchema matrixField [1; 2])).
  - by apply (proj2 (proj2 (proj2 (synthesis_needs_directive_definitions (H := mersenne)
                                     examplesOnlySchema stampField [1; 2])))
                Date examplesDirective).
Defined.

(** ** Lengths that are no array lengths *)

(** X5: a [listLength] annotation with [min <= max] whose bounds are
    both negative makes the synthesis of the list fail with a
    [RangeError]: the length drawn is no length of an array. *)
Theorem list_length_out_of_range_throws `{Fake} `{!RandomNumberInRange}
    (schema : GraphQLSchema) (fieldDef : GraphQLField) (ofType : GraphQLType)
    (listLength : GraphQLDirective) (annotation : gmap string Value)
    (min max : Z) (s : Seed) :
  getDirective schema "listLength" = Some listLength →
  field_annotation listLength fieldDef = Ok (Some annotation) →
  annotation !! "min" = Some (VNum min) →
  annotation !! "max" = Some (VNum max) →
  min ≤ max →
  max < 0 →
  fakeValueOfType schema fieldDef (GraphQLList ofType) s = Throw RangeError.
Proof.
  intros Hdef Hann Hmin Hmax Hle Hout. cbn [fakeValueOfType].
  rewrite (bind_Ok _ _ _ _ _ (getListLength_run _ _ _ _ s Hdef Hann)).
  cbn [listLength_bounds fst snd]. unfold prop.
  rewrite Hmin, Hmax. cbn [default from_option id].
  pose proof (random_number_range min max s Hle) as Hn.
  unfold Array_fill_map.
  by replace (_ || _) with true by lia.
Qed.

(** [below: [Int] @listLength(min: -2, max: -1)]. *)
Lemma list_length_out_of_range_throws_witness :
  fakeValueOfType sampleSchema belowField (GraphQLList (NamedType Int)) [5; 6] =
    Throw RangeError.
Proof.
  apply (list_length_out_of_range_throws (H := mersenne) sampleSchema belowField
           (NamedType Int) listLengthDirective
           {[ "min" := VNum (-2); "max" := VNum (-1) ]} (-2) (-1) [5; 6]);
    [reflexivity | reflexivity | reflexivity | reflexivity | lia | lia].
Defined.

(** ** Lists of lists *)

Lemma repeatM_Forall `{Fake} (P : Value → Prop) n (item : M Value) s items s' :
  (∀ s1 v s2, item s1 = Ok (v, s2) → P v) →
  repeatM n item s = Ok (items, s') →
  Forall P items.
Proof.
  intros Hitem. revert s items s'.
  induction n as [| n IH]; intros s items s' Hrun; cbn in Hrun.
  - unfold ret in Hrun. inversion Hrun. constructor.
  - apply bind_inv_Ok in Hrun as (v & s1 & Hv & Hrun).
    apply bind_inv_Ok in Hrun as (vs & s2 & Hvs & Hrun).
    unfold ret in Hrun. inversion Hrun; subst.
    constructor; eauto.
Qed.

Lemma getListLength_in_bounds `{Fake} `{!RandomNumberInRange}
    schema fieldDef listLength lo hi s :
  getDirective schema "listLength" = Some listLength →
  field_bounds listLength fieldDef lo hi →
  lo ≤ hi →
  ∃ n s', getListLength schema (field_object fieldDef) s = Ok (n, s') ∧ lo ≤ n ≤ hi.
Proof.
  intros Hdef Hbounds Hle.
  destruct Hbounds as [(Hann & -> & ->) | (annotation & Hann & Hmin & Hmax)];
    rewrite (getListLength_run _ _ _ _ s Hdef Hann);
    (do 2 eexists; split; [reflexivity |]); cbn [listLength_bounds fst snd].
  - by apply random_number_range.
  - unfold prop. rewrite Hmin, Hmax. by apply random_number_range.
Qed.

(** X6: the one [listLength] annotation of a field, with [min <= max],
    bounds the arrays of every level of a list of lists: whatever value
    is synthesized for the type of the field, each array in it, at each
    list wrapper, has a length between [min] and [max] (between 2 and 4
    without annotation); and a value is synthesized when moreover
    [0 <= min] and the named type under the wrappers can be
    synthesized. *)
Theorem nested_list_lengths `{Fake} `{!RandomNumberInRange}
    (schema : GraphQLSchema) (fieldDef : GraphQLField)
    (listLength : GraphQLDirective) (lo hi : Z) (type : GraphQLType) :
  getDirective schema "listLength" = Some listLength →
  field_bounds listLength fieldDef lo hi →
  lo ≤ hi →
  (∀ s v s',
     fakeValueOfType schema fieldDef type s = Ok (v, s') →
     list_lengths_within lo hi type v) ∧
  (0 ≤ lo → hi < 2 ^ 31 →
   (∀ s1, ∃ v s2,
      fakeValueOfType schema fieldDef (NamedType (getNamedType type)) s1 = Ok (v, s2)) →
   ∀ s, ∃ v s', fakeValueOfType schema fieldDef type s = Ok (v, s')).
Proof.
  intros Hdef Hbounds Hle. split.
  - induction type as [type | ofType IH | ofType IH]; intros s v s' Hrun.
    + exact I.
    + cbn [fakeValueOfType] in Hrun.
      apply bind_inv_Ok in Hrun as (n & s1 & Hn & Hrun).
      destruct (getListLength_in_bounds schema fieldDef listLength lo hi s Hdef Hbounds Hle)
        as (n' & s1' & Hn' & Hrange).
      rewrite Hn' in Hn. inversion Hn; subst n' s1'.
      unfold Array_fill_map in Hrun.
      destruct ((n <? 0) || (2 ^ 32 - 1 <? n)) eqn:Hok; [discriminate |].
      apply bind_inv_Ok in Hrun as (items & s2 & Hitems & Hret).
      unfold ret in Hret. inversion Hret; subst.
      exists items. split; [done |].
      pose proof (repeatM_length _ _ _ _ _ Hitems) as Hlen.
      apply orb_false_elim in Hok as [Hok _].
      split; [lia |].
      eapply repeatM_Forall; [| exact Hitems]. intros s3 v s4. apply IH.
    + cbn [fakeValueOfType list_lengths_within] in *. eauto.
  - intros Hlo Hhi Hnamed.
    induction type as [type | ofType IH | ofType IH]; intros s.
    + apply Hnamed.
    + cbn [fakeValueOfType].
      destruct (getListLength_in_bounds schema fieldDef listLength lo hi s Hdef Hbounds Hle)
        as (n & s1 & Hn & Hrange).
      rewrite (bind_Ok _ _ _ _ _ Hn).
      destruct (Array_fill_map_total n (fakeValueOfType schema fieldDef ofType)
                  ltac:(lia) (IH Hnamed) s1) as (items & s2 & Hitems).
      eauto.
    + cbn [fakeValueOfType]. by apply IH.
Qed.

(** [matrix: [[Int]] @listLength(min: 1, max: 2)] on the sample schema. *)
Lemma nested_list_lengths_witness :
  ∃ v s',
    fakeValueOfType sampleSchema matrixField (field_type matrixField) [0; 3000000000; 7] =
      Ok (v, s') ∧
    list_lengths_within 1 2 (field_type matrixField) v.
Proof.
  pose proof (nested_list_lengths (H := mersenne) sampleSchema matrixField
                listLengthDirective 1 2 (field_type matrixField) eq_refl) as Hmatrix.
  destruct Hmatrix as [Hwithin Htotal].
  { right. exists {[ "min" := VNum 1; "max" := VNum 2 ]}.
    split; [reflexivity | split; reflexivity]. }
  { lia. }
  destruct (Htotal ltac:(lia) ltac:(lia)) with (s := [0; 3000000000; 7]) as (v & s' & Hrun).
  { intros s1. do 2 eexists. reflexivity. }
  exists v, s'. split; [exact Hrun |]. by eapply Hwithin.
Defined.

(** ** Composite values *)

(** X7: the value synthesized for a composite type is an object that has
    a [__typename] property, whatever an annotation adds to it; for an
    object type without annotation it is exactly the object
    [{__typename: name}], and nothing is drawn. *)
Theorem composite_value_is_tagged `{Fake} (schema : GraphQLSchema)
    (fieldDef : GraphQLField) (type : GraphQLNamedType) (s : Seed) :
  (isLeafType type = false →
   ∀ v s', fakeValueOfType schema fieldDef (NamedType type) s = Ok (v, s') →
           ∃ props, v = VObj props ∧ is_Some (props !! "__typename")) ∧
  (kind type = ObjectType →
   getValueCB schema fieldDef type s = Ok (None, s) →
   fakeValueOfType schema fieldDef (NamedType type) s =
     Ok (VObj {[ "__typename" := VStr (name type) ]}, s)).
Proof.
  split.
  - intros Hleaf v s' Hrun. cbn [fakeValueOfType] in Hrun.
    apply bind_inv_Ok in Hrun as (valueCB & s1 & _ & Hrun).
    rewrite Hleaf in Hrun.
    apply bind_inv_Ok in Hrun as (typename & s2 & _ & Hrun).
    apply bind_inv_Ok in Hrun as (extra & s3 & _ & Hrun).
    unfold ret in Hrun. inversion Hrun; subst.
    eexists. split; [reflexivity |].
    unfold spread. rewrite lookup_union, lookup_singleton_eq.
    by destruct (own_props extra !! "__typename").
  - intros Hkind Hcb. cbn [fakeValueOfType].
    rewrite (bind_Ok _ _ _ _ _ Hcb).
    unfold isLeafType, isAbstractType. rewrite Hkind.
    unfold bind, ret, spread. cbn. by rewrite (left_id_L ∅ (∪)).
Qed.

(** The object type [Dog], and [Kitten] whose [examples] annotation adds
    a [name]. *)
Lemma composite_value_is_tagged_witness :
  fakeValueOfType sampleSchema addCatField (NamedType Dog) [5] =
    Ok (VObj {[ "__typename" := VStr "Dog" ]}, [5]) ∧
  ∃ props s',
    fakeValueOfType sampleSchema addCatField (NamedType Kitten) [5] = Ok (VObj props, s') ∧
    is_Some (props !! "__typename").
Proof.
  split.
  - by apply (proj2 (composite_value_is_tagged (H := mersenne) sampleSchema addCatField
                       Dog [5])).
  - destruct (proj1 (composite_value_is_tagged (H := mersenne) sampleSchema addCatField
                       Kitten [5]) eq_refl
                (VObj {[ "__typename" := VStr "Kitten"; "name" := VStr "Tom" ]}) []
                eq_refl) as (props & Hv & Htag).
    exists props, []. split; [| exact Htag]. by rewrite <- Hv.
Defined.

(** X8: for an interface or a union without possible types, the
    synthesis of a value fails with a [TypeError] (the name of an
    [undefined] item is read), once the lookup of the annotations has
    passed. *)
Theorem abstract_without_possible_types_throws `{Fake} (schema : GraphQLSchema)
    (fieldDef : GraphQLField) (type : GraphQLNamedType) (s s1 : Seed)
    (valueCB : option ValueCB) :
  isAbstractType type = true →
  getPossibleTypes schema type = [] →
  getValueCB schema fieldDef type s = Ok (valueCB, s1) →
  fakeValueOfType schema fieldDef (NamedType type) s = Throw TypeError.
Proof.
  intros Habs Hempty Hcb. cbn [fakeValueOfType].
  rewrite (bind_Ok _ _ _ _ _ Hcb).
  assert (isLeafType type = false) as ->.
  { unfold isLeafType, isAbstractType in *. by destruct (kind type). }
  rewrite Habs, Hempty. apply bind_Throw.
  by rewrite (bind_Ok _ _ _ _ _ (getRandomItem_empty s1)).
Qed.

(** The interface [Node] of the sample schema, which no type implements. *)
Lemma abstract_without_possible_types_throws_witness :
  fakeValueOfType sampleSchema nobodyField (NamedType Node) [5] = Throw TypeError.
Proof.
  by apply (abstract_without_possible_types_throws (H := mersenne) sampleSchema
              nobodyField Node [5] [5] None).
Defined.

(** ** Results without echo *)

(** X9: the arguments are merged into nothing but a plain object of a
    composite field: when the type of the field is not composite or the
    resolved value is no plain object ([null], an array, a scalar), the
    resolved value is the result, under the mutation type too; and
    without arguments a resolved object is the result as it is. *)
Theorem resolved_is_returned_without_echo `{Fake} (defaultResolved : Value)
    (args : gmap string Value) (info : GraphQLResolveInfo) (fieldDef : GraphQLField)
    (s s' : Seed) (v : Value) :
  getFields (parentType info) !! fieldName info = Some fieldDef →
  instanceof_Error defaultResolved = false →
  resolve defaultResolved info fieldDef s = Ok (v, s') →
  (isCompositeType (getNullableType (field_type fieldDef)) = false ∨
   isPlainObject v = false →
   fakeFieldResolver defaultResolved args info s = Ok (v, s')) ∧
  (args = ∅ → ∀ props, v = VObj props →
   fakeFieldResolver defaultResolved args info s = Ok (VObj props, s')).
Proof.
  intros Hfield Herr Hres. unfold fakeFieldResolver. rewrite Hfield, Herr.
  rewrite (bind_Ok _ _ _ _ _ Hres). split.
  - intros [-> | ->]; by rewrite ?andb_false_r.
  - intros -> props ->.
    destruct (isMutationType info && _ && _); [| done].
    unfold ret, spread, echoed. rewrite map_size_empty.
    cbn [Nat.eqb andb own_props]. by rewrite (left_id_L ∅ (∪)).
Qed.

(** [addCat] on the sample schema with the real value [null], and with
    a real object and no arguments. *)
Lemma resolved_is_returned_without_echo_witness :
  fakeFieldResolver VNull {[ "input" := VObj {[ "name" := VStr "x" ]} ]}
    (sampleInfo MutationType "addCat") [9] = Ok (VNull, [9]) ∧
  fakeFieldResolver (VObj {[ "name" := VStr "Tom" ]}) ∅
    (sampleInfo MutationType "addCat") [9] = Ok (VObj {[ "name" := VStr "Tom" ]}, [9]).
Proof.
  split.
  - apply (proj1 (resolved_is_returned_without_echo (H := mersenne) VNull _
                    (sampleInfo MutationType "addCat") addCatField [9] [9] VNull
                    eq_refl eq_refl eq_refl)).
    by right.
  - by apply (proj2 (resolved_is_returned_without_echo (H := mersenne)
                       (VObj {[ "name" := VStr "Tom" ]}) ∅
                       (sampleInfo MutationType "addCat") addCatField [9] [9] _
                       eq_refl eq_refl eq_refl)).
Defined.

(** ** The occurrence that the extractor returns *)

Lemma getDirectiveValues_first directive pre d post :
  dn_name d = directive_name directive →
  (∀ d', d' ∈ pre → dn_name d' ≠ directive_name directive) →
  getDirectiveValues directive {| directives := pre ++ d :: post |} =
    match getArgumentValues directive (dn_arguments d) with
    | Some coerced => Ok (Some coerced)
    | None => Throw GraphQLError
    end.
Proof.
  intros Hname Hpre. unfold getDirectiveValues. cbn.
  induction pre as [| d' pre IH]; cbn.
  - by rewrite Hname, String.eqb_refl.
  - destruct (String.eqb_spec (dn_name d') (directive_name directive)) as [Heq | _].
    + exfalso. apply (Hpre d'); [by left | done].
    + apply IH. intros d'' Hd''. apply Hpre. by right.
Qed.

(** X10: for a type and for a field, the first occurrence of the
    annotation on the declaration gives the arguments, as the definition
    of the annotation coerces them, whatever follows it on the
    declaration and whatever the [extend] fragments of the type carry;
    when its arguments do not coerce, the extractor fails with a
    [GraphQLError]. *)
Theorem getDirectiveArgs_first_occurrence_of_declaration
    (directive : GraphQLDirective) (pre post : list DirectiveNode) (d : DirectiveNode) :
  dn_name d = directive_name directive →
  (∀ d', d' ∈ pre → dn_name d' ≠ directive_name directive) →
  (∀ type coerced,
     type_astNode type = Some {| directives := pre ++ d :: post |} →
     getArgumentValues directive (dn_arguments d) = Some coerced →
     getDirectiveArgs (Some directive) (type_object type) = Ok (Some coerced)) ∧
  (∀ fieldDef coerced,
     field_astNode fieldDef = Some {| directives := pre ++ d :: post |} →
     getArgumentValues directive (dn_arguments d) = Some coerced →
     getDirectiveArgs (Some directive) (field_object fieldDef) = Ok (Some coerced)) ∧
  (∀ type,
     type_astNode type = Some {| directives := pre ++ d :: post |} →
     getArgumentValues directive (dn_arguments d) = None →
     getDirectiveArgs (Some directive) (type_object type) = Throw GraphQLError) ∧
  (∀ fieldDef,
     field_astNode fieldDef = Some {| directives := pre ++ d :: post |} →
     getArgumentValues directive (dn_arguments d) = None →
     getDirectiveArgs (Some directive) (field_object fieldDef) = Throw GraphQLError).
Proof.
  intros Hname Hpre.
  pose proof (getDirectiveValues_first directive pre d post Hname Hpre) as Hfirst.
  split; [| split; [| split]].
  - intros type coerced Hbase Hco.
    rewrite getDirectiveArgs_type. unfold type_annotation. by rewrite Hbase, Hfirst, Hco.
  - intros fieldDef coerced Hbase Hco.
    rewrite getDirectiveArgs_field. unfold field_annotation. by rewrite Hbase, Hfirst, Hco.
  - intros type Hbase Hco.
    rewrite getDirectiveArgs_type. unfold type_annotation. by rewrite Hbase, Hfirst, Hco.
  - intros fieldDef Hbase Hco.
    rewrite getDirectiveArgs_field. unfold field_annotation. by rewrite Hbase, Hfirst, Hco.
Qed.

(** A type declared with [@fake @examples(values: 1) @examples(values: [2])]
    and extended with [@examples(values: [3])], and a field declared
    with [@listLength(min: 1, max: 2147483648)]. *)
Lemma getDirectiveArgs_first_occurrence_of_declaration_witness :
  getDirectiveArgs (Some examplesDirective)
    (type_object
       {| kind := ScalarType; name := "Odd";
          type_astNode :=
            Some {| directives :=
                      [ {| dn_name := "fake"; dn_arguments := ∅ |};
                        {| dn_name := "examples";
                           dn_arguments := {[ "values" := VNum 1 ]} |};
                        {| dn_name := "examples";
                           dn_arguments := {[ "values" := VArr [VNum 2] ]} |} ] |};
          extensionASTNodes :=
            Some [with_directive "examples" {[ "values" := VArr [VNum 3] ]}] |}) =
    Ok (Some {[ "values" := VArr [VNum 1] ]}) ∧
  getDirectiveArgs (Some listLengthDirective)
    (field_object
       {| field_type := GraphQLList (NamedType Int);
          field_astNode :=
            Some {| directives :=
                      [] ++ {| dn_name := "listLength";
                               dn_arguments :=
                                 {[ "min" := VNum 1; "max" := VNum 2147483648 ]} |} :: [] |}
       |}) = Throw GraphQLError.
Proof.
  split.
  - apply (proj1 (getDirectiveArgs_first_occurrence_of_declaration examplesDirective
                    [ {| dn_name := "fake"; dn_arguments := ∅ |} ]
                    [ {| dn_name := "examples";
                         dn_arguments := {[ "values" := VArr [VNum 2] ]} |} ]
                    {| dn_name := "examples";
                       dn_arguments := {[ "values" := VNum 1 ]} |}
                    eq_refl
                    ltac:(intros d' Hd'; apply list_elem_of_singleton in Hd' as ->;
                          discriminate)));
      reflexivity.
  - apply (proj2 (proj2 (proj2
             (getDirectiveArgs_first_occurrence_of_declaration listLengthDirective
                [] []
                {| dn_name := "listLength";
                   dn_arguments := {[ "min" := VNum 1; "max" := VNum 2147483648 ]} |}
                eq_refl
                ltac:(intros d' Hd'; inversion Hd')))));
      reflexivity.
Defined.

(** * Properties of the command line and of the editor *)

(** ** The placeholder, once more *)

Lemma prefix_not_lt (c : ascii) (s : string) :
  c ≠ "<"%char → String.prefix "<RootTypeName>" (String c s) = false.
Proof.
  intros Hc. cbn -[Ascii.ascii_dec].
  by destruct (Ascii.ascii_dec "<" c) as [<- | _].
Qed.

Lemma includes_without_lt (a s : string) :
  (∀ c, c ∈ String.list_ascii_of_string a → c ≠ "<"%char) →
  includes "<RootTypeName>" (a +:+ s) = includes "<RootTypeName>" s.
Proof.
  induction a as [| c a IH]; intros Hno; [done |].
  change (includes "<RootTypeName>" (String c a +:+ s))
    with (String.prefix "<RootTypeName>" (String c (a +:+ s)) ||
          includes "<RootTypeName>" (a +:+ s)).
  rewrite prefix_not_lt by (apply Hno; by left).
  apply IH. intros c' Hc'. apply Hno. by right.
Qed.

Lemma String_replace_absent (pattern replacement s : string) :
  includes pattern s = false → String_replace pattern replacement s = s.
Proof.
  induction s as [| c s IH]; intros Habsent.
  - cbn in *. apply orb_false_elim in Habsent as [-> _]. done.
  - change (includes pattern (String c s))
      with (String.prefix pattern (String c s) || includes pattern s) in Habsent.
    apply orb_false_elim in Habsent as [Hprefix Hrest].
    change (String_replace pattern replacement (String c s))
      with (if String.prefix pattern (String c s)
            then replacement +:+ skip (String.length pattern) (String c s)
            else String c (String_replace pattern replacement s)).
    by rewrite Hprefix, IH.
Qed.

(** X11: the substitution of [runServer] leaves a text without the
    placeholder as it is; in a text with one placeholder (and no other
    [<] before it) the name of the query type, which has no [<] and no
    [$], takes its place and no placeholder is left; and over a base
    schema without query type the substitution fails with a
    [TypeError]. *)
Theorem placeholder_substitution (schema : GraphQLSchema) :
  (∀ queryTypeName body,
     getQueryType schema = Some queryTypeName →
     includes "<RootTypeName>" body = false →
     runServer_extensionSDL schema (Some body) = Ok (Some body)) ∧
  (∀ queryTypeName (a rest : string),
     getQueryType schema = Some queryTypeName →
     (∀ c, c ∈ String.list_ascii_of_string a → c ≠ "<"%char) →
     (∀ c, c ∈ String.list_ascii_of_string queryTypeName →
           c ≠ "<"%char ∧ c ≠ "$"%char) →
     includes "<RootTypeName>" rest = false →
     runServer_extensionSDL schema (Some (a +:+ "<RootTypeName>" +:+ rest)) =
       Ok (Some (a +:+ queryTypeName +:+ rest)) ∧
     includes "<RootTypeName>" (a +:+ queryTypeName +:+ rest) = false) ∧
  (∀ body,
     getQueryType schema = None →
     runServer_extensionSDL schema (Some body) = Throw TypeError).
Proof.
  split; [| split].
  - intros queryTypeName body Hquery Habsent. unfold runServer_extensionSDL.
    by rewrite Hquery, String_replace_absent.
  - intros queryTypeName a rest Hquery Ha Hname Hrest. split.
    + unfold runServer_extensionSDL. by rewrite Hquery, String_replace_first.
    + rewrite !includes_without_lt; [done | | done].
      intros c Hc. by apply Hname.
  - intros body Hquery. unfold runServer_extensionSDL. by rewrite Hquery.
Qed.

(** The default extension text, with one placeholder. *)
Lemma placeholder_substitution_witness :
  runServer_extensionSDL sampleSchema (Some "extend type <RootTypeName> { pet: String }") =
    Ok (Some "extend type Query { pet: String }") ∧
  includes "<RootTypeName>" "extend type Query { pet: String }" = false.
Proof.
  apply (proj1 (proj2 (placeholder_substitution sampleSchema))
           "Query" "extend type " " { pet: String }" eq_refl).
  - intros c Hc. repeat (apply elem_of_cons in Hc as [-> | Hc]; [discriminate |]).
    inversion Hc.
  - intros c Hc.
    repeat (apply elem_of_cons in Hc as [-> | Hc]; [split; discriminate |]).
    inversion Hc.
  - reflexivity.
Defined.

(** ** The headers of the command line *)

Section CoerceProperties.
Variable toLowerCase : list N → list N.
Variable trim : list N → list N.

Lemma match_name_value_None line str :
  match_name_value line str = None ↔ 58%N ∉ str.
Proof.
  revert line. induction str as [| c str IH]; intros line; cbn.
  - split; [intros _ Hin; inversion Hin | done].
  - destruct (N.eqb_spec c 58) as [-> | Hne].
    + split; [done |]. intros Hnot. exfalso. apply Hnot. by left.
    + assert (Hcons : 58%N ∉ c :: str ↔ 58%N ∉ str).
      { rewrite not_elem_of_cons. split; [by intros [_ ?] | by split]. }
      rewrite Hcons. destruct (isLineTerminator c); apply IH.
Qed.

Lemma match_name_value_colon line name value :
  58%N ∉ name →
  (∀ c, c ∈ name → isLineTerminator c = false) →
  match_name_value line (name ++ 58%N :: value) =
    Some (line ++ name, take_while (fun c => negb (isLineTerminator c)) value).
Proof.
  revert line. induction name as [| c name IH]; intros line Hcolon Hline; cbn.
  - by rewrite app_nil_r.
  - apply not_elem_of_cons in Hcolon as [Hne Hcolon].
    destruct (N.eqb_spec c 58) as [-> | _]; [done |].
    rewrite (Hline c) by (by left).
    rewrite IH; [by rewrite <- app_assoc | done |].
    intros c' Hc'. apply Hline. by right.
Qed.

Lemma take_while_all {A} (p : A → bool) (l : list A) :
  (∀ x, x ∈ l → p x = true) → take_while p l = l.
Proof.
  induction l as [| x l IH]; intros Hall; cbn; [done |].
  rewrite (Hall x) by (by left). f_equal. apply IH.
  intros y Hy. apply Hall. by right.
Qed.

Lemma header_coerce_from_app headers arr arr' :
  header_coerce_from toLowerCase trim headers (arr ++ arr') =
    match header_coerce_from toLowerCase trim headers arr with
    | Ok headers' => header_coerce_from toLowerCase trim headers' arr'
    | Throw e => Throw e
    end.
Proof.
  revert headers. induction arr as [| str arr IH]; intros headers; cbn; [done |].
  destruct (match_name_value [] str) as [[name value] |]; [apply IH | done].
Qed.

Lemma header_coerce_from_throws headers arr :
  header_coerce_from toLowerCase trim headers arr = Throw TypeError ↔
  ∃ str, str ∈ arr ∧ 58%N ∉ str.
Proof.
  revert headers. induction arr as [| str arr IH]; intros headers; cbn.
  - split; [discriminate | intros (str & Hin & _); inversion Hin].
  - destruct (match_name_value [] str) as [[name value] |] eqn:Hmatch.
    + rewrite IH. split.
      * intros (str' & Hin & Hno). exists str'. split; [by right | done].
      * intros (str' & Hin & Hno). apply elem_of_cons in Hin as [-> | Hin]; [| eauto].
        pose proof (proj2 (match_name_value_None [] _) Hno). congruence.
    + split; [| done]. intros _. exists str. split; [by left |].
      exact (proj1 (match_name_value_None [] str) Hmatch).
Qed.

Lemma header_coerce_from_result headers arr :
  (∃ result, header_coerce_from toLowerCase trim headers arr = Ok result) ∨
  header_coerce_from toLowerCase trim headers arr = Throw TypeError.
Proof.
  revert headers. induction arr as [| str arr IH]; intros headers; cbn; [eauto |].
  destruct (match_name_value [] str) as [[name value] |]; [apply IH | by right].
Qed.

End CoerceProperties.

(** X12: the headers of the command line are parsed exactly when every
    one of them has a colon: with a header that has none, [coerce] fails
    with a [TypeError], and it fails in no other case. *)
Theorem header_without_colon_throws (toLowerCase trim : list N → list N)
    (arr : list (list N)) :
  (header_coerce toLowerCase trim arr = Throw TypeError ↔
   ∃ str, str ∈ arr ∧ 58%N ∉ str) ∧
  ((∀ str, str ∈ arr → 58%N ∈ str) →
   ∃ headers, header_coerce toLowerCase trim arr = Ok headers).
Proof.
  split; [apply header_coerce_from_throws |].
  intros Hall. destruct (header_coerce_from_result toLowerCase trim ∅ arr) as [Hok | Hthrow];
    [done |].
  apply header_coerce_from_throws in Hthrow as (str & Hin & Hno).
  exfalso. apply Hno. by apply Hall.
Qed.

(** X13: a header [name:value], whose name has no colon and which has no
    line terminator, sets the property named by the name in lower case
    to the trimmed value; the value is all that follows the first colon,
    colons included; it replaces what an earlier header of that name
    set; and a header named [__proto__] sets nothing. *)
Theorem header_name_and_value (toLowerCase trim : list N → list N)
    (arr : list (list N)) (headers : gmap (list N) (list N)) (name value : list N) :
  header_coerce toLowerCase trim arr = Ok headers →
  58%N ∉ name →
  (∀ c, c ∈ name ++ value → isLineTerminator c = false) →
  (toLowerCase name ≠ code_units "__proto__" →
   ∃ headers',
     header_coerce toLowerCase trim (arr ++ [name ++ 58%N :: value]) = Ok headers' ∧
     headers' !! toLowerCase name = Some (trim value) ∧
     ∀ key, key ≠ toLowerCase name → headers' !! key = headers !! key) ∧
  (toLowerCase name = code_units "__proto__" →
   header_coerce toLowerCase trim (arr ++ [name ++ 58%N :: value]) = Ok headers).
Proof.
  intros Harr Hcolon Hline. unfold header_coerce in *.
  rewrite header_coerce_from_app, Harr. cbn [header_coerce_from].
  rewrite match_name_value_colon; [| done | intros c Hc; apply Hline, elem_of_app; by left].
  rewrite take_while_all; cycle 1.
  { intros c Hc. rewrite (Hline c); [done |]. apply elem_of_app. by right. }
  cbn [app]. unfold set_header. split.
  - intros Hproto. rewrite decide_False by done.
    eexists. split; [reflexivity |]. split.
    + apply lookup_insert_eq.
    + intros key Hkey. by apply lookup_insert_ne.
  - intros Hproto. by rewrite decide_True.
Qed.

(** [-H "Authorization: bearer a:b"] after [-H "authorization: none"]. *)
Lemma header_name_and_value_witness :
  ∃ headers',
    header_coerce ascii_toLowerCase String_trim
      [code_units "authorization: none"; code_units "Authorization: bearer a:b"] =
      Ok headers' ∧
    headers' !! code_units "authorization" = Some (code_units "bearer a:b").
Proof.
  destruct (proj1 (header_name_and_value ascii_toLowerCase String_trim
                     [code_units "authorization: none"]
                     {[ code_units "authorization" := code_units "none" ]}
                     (code_units "Authorization") (code_units " bearer a:b")
                     eq_refl
                     ltac:(intros Hin; vm_compute in Hin;
                           repeat (apply elem_of_cons in Hin as [Hin | Hin]; [discriminate |]);
                           inversion Hin)
                     ltac:(intros c Hc; vm_compute in Hc;
                           repeat (apply elem_of_cons in Hc as [-> | Hc]; [reflexivity |]);
                           inversion Hc))
              ltac:(discriminate))
    as (headers' & Hrun & Hvalue & _).
  exists headers'. split; [exact Hrun | exact Hvalue].
Defined.

(** A header without colon among the headers. *)
Lemma header_without_colon_throws_witness :
  header_coerce ascii_toLowerCase String_trim
    [code_units "accept: text/html"; code_units "authorization"] = Throw TypeError.
Proof.
  apply (proj1 (header_without_colon_throws ascii_toLowerCase String_trim _)).
  exists (code_units "authorization"). split; [right; by left |].
  intros Hin. vm_compute in Hin.
  repeat (apply elem_of_cons in Hin as [Hin | Hin]; [discriminate |]).
  inversion Hin.
Defined.

(** ** The editor *)

(** X14: after any session of requests on [/user-sdl], the text that the
    server holds for the editor is the last text that was saved (as it
    was posted, placeholders included), or the one it started with; it
    is the schema text when the server has no extension text and the
    extension text otherwise, so the server never changes mode and, with
    an extension, never changes the base schema text; a [POST] whose
    file cannot be written changes nothing; and a [GET] answers the two
    texts held. *)
Theorem editor_serves_last_saved_text (requests : list Request)
    (schemaText extensionText : string) :
  (serve requests {| schemaSDL := schemaText; extensionSDL := None |}).2 =
    {| schemaSDL := default schemaText (last_saved requests); extensionSDL := None |} ∧
  (serve requests {| schemaSDL := schemaText; extensionSDL := Some extensionText |}).2 =
    {| schemaSDL := schemaText;
       extensionSDL := Some (default extensionText (last_saved requests)) |} ∧
  (∀ sources,
     (serve (requests ++ [GetUserSDL]) sources).1 =
       (serve requests sources).1 ++
       [Json 200 (schemaSDL (serve requests sources).2)
                 (extensionSDL (serve requests sources).2)]).
Proof.
  split; [| split].
  - revert schemaText. induction requests as [| request requests IH]; intros schemaText;
      [done |].
    cbn [serve last_saved].
    destruct request as [| body [message |]]; cbn [user_sdl extensionSDL schemaSDL].
    + specialize (IH schemaText). by destruct (serve requests _).
    + specialize (IH schemaText). by destruct (serve requests _).
    + specialize (IH body). destruct (serve requests _). cbn in *. rewrite IH.
      by destruct (last_saved requests).
  - revert extensionText.
    induction requests as [| request requests IH]; intros extensionText; [done |].
    cbn [serve last_saved].
    destruct request as [| body [message |]]; cbn [user_sdl extensionSDL schemaSDL].
    + specialize (IH extensionText). by destruct (serve requests _).
    + specialize (IH extensionText). by destruct (serve requests _).
    + specialize (IH body). destruct (serve requests _). cbn in *. rewrite IH.
      by destruct (last_saved requests).
  - induction requests as [| request requests IH]; intros sources; [done |].
    cbn [serve app]. destruct (user_sdl request sources) as [response sources'].
    specialize (IH sources').
    destruct (serve (requests ++ [GetUserSDL]) sources') as [responses1 s1].
    destruct (serve requests sources') as [responses2 s2].
    cbn in *. by rewrite IH.
Qed.
